(** * meme-tycoon: the valuation and recurring-update engine

    A shallow embedding of [src/server/memeEngine.ts]:
    [createMeme], [calculateMemeValue], [calculatePriceChange],
    [updateMemeValuation] and [getTrendingMemes].

    Modelling conventions.
    - A JavaScript [number] is a rational ([Q]); equations on computed
      numbers are stated with [==].  The values the engine stores travel
      through JSON, which carries finite numbers only; rounding of doubles
      is not modelled.  Of the two divisions, the one of
      [calculatePriceChange] never has a zero divisor (see
      [prevEngagementScore]); the one of [getChangePercent] divides by a
      stored price, which can be zero, so its result is a [JsNumber]: a
      rational, an infinity or [NaN].
    - [x || 10] on a number is [x] unless [x] is zero.
    - An ISO timestamp is the number of milliseconds it denotes ([Z]);
      [new Date(s).getTime()] is then the identity.  The clock is read from
      the environment and does not advance during one call.
    - The Redis store is split by key prefix into typed maps
      ([memes:<id>], [meme_index], [category:<c>], [portfolio:<u>]); a value
      is kept as the record that [JSON.parse] would give back.
    - [async] code is a state-and-exception monad over [World]; every call
      to a collaborator (Redis, Reddit, the scheduler, the market-history
      sink) may throw, as decided by the fault schedule carried by the
      world.  Quantifying over worlds quantifies over all fault schedules. *)

From Stdlib Require Import QArith Qminmax Lqa ZArith Lia Sorted Permutation.
From stdpp Require Import gmap strings list fin_maps pretty.

Open Scope Q_scope.

(** ** Data model *)

Record PricePoint := {
  timestamp : Z;
  price     : Q
}.

(** [MemeData] as built by the object literal of [createMeme]; its field
    [id] is [meme_id] here.  [postId] is never set there and is read by
    [calculateMemeValue], so it is optional. *)
Record MemeData := {
  meme_id           : string;
  creatorId         : string;
  creatorName       : string;
  createdAt         : Z;
  templateId        : string;
  templateUrl       : string;
  title             : string;
  topText           : string;
  bottomText        : string;
  categories        : list string;
  initialSharePrice : Q;
  currentSharePrice : Q;
  totalShares       : Q;
  availableShares   : Q;
  tradeVolume       : Q;
  priceHistory      : list PricePoint;
  engagementScore   : Q;
  lastUpdated       : Z;
  postId            : option string
}.

(** [MemeValuation] as returned by [calculateMemeValue]; its fields
    [engagementScore] and [timestamp] are [newEngagementScore] and
    [valuationTimestamp] here. *)
Record MemeValuation := {
  memeId             : string;
  previousPrice      : Q;
  currentPrice       : Q;
  priceChangePercent : Q;
  marketCap          : Q;
  newEngagementScore : Q;
  valuationTimestamp : Z
}.

Record Holding := {
  shares          : Q;
  averageBuyPrice : Q
}.

Record User := {
  user_id  : string;
  username : string
}.

Record Post := {
  score        : Q;
  commentCount : Q
}.

(** ** The valuation algorithm (pure part) *)

(** [x || d] for numbers: zero is the falsy number. *)
Definition or_default (x d : Q) : Q :=
  if Qeq_bool x 0 then d else x.

Definition msPerDay : Q := 1000 * 60 * 60 * 24.

(** [const prevEngagementScore = meme.engagementScore || 10] *)
Definition prevEngagementScore (meme : MemeData) : Q :=
  or_default (engagementScore meme) 10.

Definition scoreChangePercent (meme : MemeData) (newScore : Q) : Q :=
  (newScore - prevEngagementScore meme) / prevEngagementScore meme.

(** [(Date.now() - new Date(meme.createdAt).getTime()) / (1000*60*60*24)] *)
Definition ageInDays (now : Z) (meme : MemeData) : Q :=
  inject_Z (now - createdAt meme) / msPerDay.

Definition volatilityFactor (now : Z) (meme : MemeData) : Q :=
  Qmax 0.1 (1 - ageInDays now meme * 0.1).

Definition volumeFactor (meme : MemeData) : Q :=
  Qmin 2 (1 + tradeVolume meme / 1000).

Definition rawPriceChange (now : Z) (meme : MemeData) (newScore : Q) : Q :=
  scoreChangePercent meme newScore * volatilityFactor now meme * volumeFactor meme.

(** [function calculatePriceChange(meme, newEngagementScore)] *)
Definition calculatePriceChange (now : Z) (meme : MemeData) (newScore : Q) : Q :=
  Qmax (-0.3) (Qmin 0.3 (rawPriceChange now meme newScore)).

(** The engagement formula applied when the post was fetched:
    [Math.max(10, postKarma * 0.5 + commentCount * 2 + meme.tradeVolume * 3)] *)
Definition postEngagement (meme : MemeData) (post : Post) : Q :=
  Qmax 10 (score post * 0.5 + commentCount post * 2 + tradeVolume meme * 3).

(** [Math.max(0.1, meme.currentSharePrice * (1 + priceChangePercent))] *)
Definition newPrice (meme : MemeData) (pcp : Q) : Q :=
  Qmax 0.1 (currentSharePrice meme * (1 + pcp)).

(** The object returned by [calculateMemeValue], from the loaded meme, the
    engagement score settled on and the clock. *)
Definition valuate (now : Z) (id : string) (meme : MemeData) (engagement : Q)
  : MemeValuation :=
  let pcp := calculatePriceChange now meme engagement in
  let p := newPrice meme pcp in
  {| memeId := id;
     previousPrice := currentSharePrice meme;
     currentPrice := p;
     priceChangePercent := pcp;
     marketCap := totalShares meme * p;
     newEngagementScore := engagement;
     valuationTimestamp := now |}.


(** ** The commit of a valuation (pure part of [updateMemeValuation]) *)

Definition historyCap : nat := 24.

(** [arr.slice(start)] for [0 <= start]. *)
Definition slice_from {A} (start : nat) (l : list A) : list A := drop start l.

(** [meme.priceHistory.push(sample)] followed by
    [if (length > 24) priceHistory = priceHistory.slice(length - 24)]. *)
Definition pushCapped (h : list PricePoint) (sample : PricePoint) : list PricePoint :=
  let h' := h ++ [sample] in
  if (historyCap <? length h')%nat
  then slice_from (length h' - historyCap) h'
  else h'.

Definition sampleOf (v : MemeValuation) : PricePoint :=
  {| timestamp := valuationTimestamp v; price := currentPrice v |}.

(** Lines 210-223: the three field assignments and the history update. *)
Definition commitValuation (meme : MemeData) (v : MemeValuation) : MemeData :=
  {| meme_id := meme_id meme;
     creatorId := creatorId meme;
     creatorName := creatorName meme;
     createdAt := createdAt meme;
     templateId := templateId meme;
     templateUrl := templateUrl meme;
     title := title meme;
     topText := topText meme;
     bottomText := bottomText meme;
     categories := categories meme;
     initialSharePrice := initialSharePrice meme;
     currentSharePrice := currentPrice v;
     totalShares := totalShares meme;
     availableShares := availableShares meme;
     tradeVolume := tradeVolume meme;
     priceHistory := pushCapped (priceHistory meme) (sampleOf v);
     engagementScore := newEngagementScore v;
     lastUpdated := valuationTimestamp v;
     postId := postId meme |}.

(** ** Ranking (pure part of [getTrendingMemes]) *)

(** What a division of two stored numbers can give: a rational, or, for a
    zero divisor, an infinity or [NaN]. *)
Inductive JsNumber :=
  | Finite (q : Q)
  | PosInfinity
  | NegInfinity
  | NotANumber.

(** [x / y] for finite [x] and [y]: [x / 0] is [Infinity] for a positive
    [x], [-Infinity] for a negative [x] and [NaN] for [0 / 0]. *)
Definition js_div (x y : Q) : JsNumber :=
  if Qeq_bool y 0
  then (if negb (Qle_bool x 0) then PosInfinity
        else if negb (Qle_bool 0 x) then NegInfinity
        else NotANumber)
  else Finite (x / y).

(** [x - y]: [NaN] when an operand is [NaN] or both are the same
    infinity. *)
Definition js_sub (x y : JsNumber) : JsNumber :=
  match x, y with
  | NotANumber, _ | _, NotANumber => NotANumber
  | Finite a, Finite b => Finite (a - b)
  | Finite _, PosInfinity => NegInfinity
  | Finite _, NegInfinity => PosInfinity
  | PosInfinity, PosInfinity => NotANumber
  | PosInfinity, _ => PosInfinity
  | NegInfinity, NegInfinity => NotANumber
  | NegInfinity, _ => NegInfinity
  end.

(** [x < y], [x <= y] and [x == y] as JavaScript decides them: false as
    soon as an operand is [NaN]. *)
Definition js_lt (x y : JsNumber) : Prop :=
  match x, y with
  | NotANumber, _ | _, NotANumber => False
  | Finite a, Finite b => a < b
  | NegInfinity, NegInfinity => False
  | NegInfinity, _ => True
  | Finite _, PosInfinity => True
  | _, _ => False
  end.

Definition js_le (x y : JsNumber) : Prop :=
  match x, y with
  | NotANumber, _ | _, NotANumber => False
  | Finite a, Finite b => a <= b
  | NegInfinity, _ => True
  | _, PosInfinity => True
  | _, _ => False
  end.

Definition js_eq (x y : JsNumber) : Prop :=
  match x, y with
  | Finite a, Finite b => a == b
  | PosInfinity, PosInfinity => True
  | NegInfinity, NegInfinity => True
  | _, _ => False
  end.

(** The closure [getChangePercent] of the comparator.  The two lookups are
    in range once the length test has passed. *)
Definition getChangePercent (meme : MemeData) : JsNumber :=
  let h := priceHistory meme in
  if (length h <? 2)%nat then Finite 0
  else
    match h !! (length h - 1)%nat, h !! (length h - 2)%nat with
    | Some current, Some previous =>
        js_div (price current - price previous) (price previous)
    | _, _ => Finite 0
    end.

(** The comparator handed to [sort]: [getChangePercent(b) - getChangePercent(a)]. *)
Definition compareTrending (a b : MemeData) : JsNumber :=
  js_sub (getChangePercent b) (getChangePercent a).

(** What [sort] makes of the value its comparator returns: a [NaN] counts
    as 0, and of the rest only the sign is looked at. *)
Definition comparatorSign (v : JsNumber) : Q :=
  match v with
  | Finite q => q
  | PosInfinity => 1
  | NegInfinity => -1
  | NotANumber => 0
  end.

(** [compareTrending] as [sort] sees it. *)
Definition trendingOrder (a b : MemeData) : Q :=
  comparatorSign (compareTrending a b).

(** [Array.prototype.sort(cmp)]: a stable sort; [a] stays before [b] unless
    [cmp(a, b) > 0].  Written as an insertion sort. *)
Fixpoint sort_insert {A} (cmp : A -> A -> Q) (x : A) (l : list A) : list A :=
  match l with
  | [] => [x]
  | y :: l' => if Qle_bool (cmp x y) 0 then x :: y :: l' else y :: sort_insert cmp x l'
  end.

Definition js_sort {A} (cmp : A -> A -> Q) (l : list A) : list A :=
  foldr (sort_insert cmp) [] l.

(** [arr.slice(0, end)] for an integer [end]: a negative [end] counts from
    the end of the array. *)
Definition slice_to {A} (l : list A) (e : Z) : list A :=
  let len := Z.of_nat (length l) in
  let final := if (e <? 0)%Z then Z.max (len + e) 0 else Z.min e len in
  take (Z.to_nat final) l.

(** ** The world: store, scheduler, sink, console, environment *)

Record Redis := {
  memes      : gmap string MemeData;
  meme_index : option (list string);
  category   : gmap string (list string);
  portfolio  : gmap string (gmap string Holding)
}.

Record Job := {
  delay   : Z;
  jobName : string;
  payload : string
}.

Inductive Error :=
  | MemeNotFound (id : string)
  | RedisError
  | RedditError
  | SchedulerError
  | HistoryError.

(** What the code cannot control: the clock, [Math.random], the logged-in
    user and the posts Reddit knows. *)
Record Env := {
  clock       : Z;
  random      : Z;
  currentUser : User;
  posts       : gmap string Post
}.

(** For each collaborator, whether its next calls throw ([true]); an
    exhausted schedule means no further fault. *)
Record Faults := {
  redis_faults     : list bool;
  reddit_faults    : list bool;
  scheduler_faults : list bool;
  history_faults   : list bool
}.

Record World := {
  redis         : Redis;
  scheduled     : list Job;
  marketHistory : list MemeValuation;
  console       : list Error;
  env           : Env;
  faults        : Faults
}.

Definition set_redis (r : Redis) (w : World) : World :=
  {| redis := r; scheduled := scheduled w; marketHistory := marketHistory w;
     console := console w; env := env w; faults := faults w |}.

Definition set_scheduled (j : list Job) (w : World) : World :=
  {| redis := redis w; scheduled := j; marketHistory := marketHistory w;
     console := console w; env := env w; faults := faults w |}.

Definition set_marketHistory (h : list MemeValuation) (w : World) : World :=
  {| redis := redis w; scheduled := scheduled w; marketHistory := h;
     console := console w; env := env w; faults := faults w |}.

Definition set_console (c : list Error) (w : World) : World :=
  {| redis := redis w; scheduled := scheduled w; marketHistory := marketHistory w;
     console := c; env := env w; faults := faults w |}.

Definition set_faults (f : Faults) (w : World) : World :=
  {| redis := redis w; scheduled := scheduled w; marketHistory := marketHistory w;
     console := console w; env := env w; faults := f |}.

(** ** The monad of [async] functions *)

Inductive Result (A : Type) :=
  | Ok (a : A)
  | Throw (e : Error).
Arguments Ok {A} a.
Arguments Throw {A} e.

Definition M (A : Type) : Type := World -> Result A * World.

Definition ret {A} (a : A) : M A := fun w => (Ok a, w).

Definition throw {A} (e : Error) : M A := fun w => (Throw e, w).

Definition bind {A B} (m : M A) (k : A -> M B) : M B :=
  fun w => match m w with
           | (Ok a, w') => k a w'
           | (Throw e, w') => (Throw e, w')
           end.

(** [try { body } catch (error) { handler }] *)
Definition try_catch {A} (body : M A) (handler : Error -> M A) : M A :=
  fun w => match body w with
           | (Ok a, w') => (Ok a, w')
           | (Throw e, w') => handler e w'
           end.

Notation "'let!' x ':=' m 'in' k" := (bind m (fun x => k))
  (at level 10, x binder, m at level 100, k at level 200).
Notation "'do!' m 'in' k" := (bind m (fun _ => k))
  (at level 10, m at level 100, k at level 200).

(** [for (const x of xs) { body x }] *)
Fixpoint for_of {A} (xs : list A) (body : A -> M unit) : M unit :=
  match xs with
  | [] => ret tt
  | x :: xs' => do! body x in for_of xs' body
  end.

(** ** Collaborators *)

Definition next_fault (fs : list bool) : bool * list bool :=
  match fs with
  | [] => (false, [])
  | b :: rest => (b, rest)
  end.

Definition set_redis_faults (fs : list bool) (f : Faults) : Faults :=
  {| redis_faults := fs; reddit_faults := reddit_faults f;
     scheduler_faults := scheduler_faults f; history_faults := history_faults f |}.

Definition set_reddit_faults (fs : list bool) (f : Faults) : Faults :=
  {| redis_faults := redis_faults f; reddit_faults := fs;
     scheduler_faults := scheduler_faults f; history_faults := history_faults f |}.

Definition set_scheduler_faults (fs : list bool) (f : Faults) : Faults :=
  {| redis_faults := redis_faults f; reddit_faults := reddit_faults f;
     scheduler_faults := fs; history_faults := history_faults f |}.

Definition set_history_faults (fs : list bool) (f : Faults) : Faults :=
  {| redis_faults := redis_faults f; reddit_faults := reddit_faults f;
     scheduler_faults := scheduler_faults f; history_faults := fs |}.

(** One Redis command: it throws when the fault schedule says so, and
    otherwise reads or updates the store. *)
Definition redis_call {A} (op : Redis -> A * Redis) : M A :=
  fun w =>
    let (fault, rest) := next_fault (redis_faults (faults w)) in
    let w1 := set_faults (set_redis_faults rest (faults w)) w in
    if fault then (Throw RedisError, w1)
    else let (a, r) := op (redis w) in (Ok a, set_redis r w1).

(** [redis.get(`memes:${id}`)] and [redis.set(`memes:${id}`, JSON.stringify(m))] *)
Definition redis_get_meme (id : string) : M (option MemeData) :=
  redis_call (fun r => (memes r !! id, r)).

Definition redis_set_meme (id : string) (m : MemeData) : M unit :=
  redis_call (fun r =>
    (tt, {| memes := <[id := m]> (memes r); meme_index := meme_index r;
            category := category r; portfolio := portfolio r |})).

(** [redis.get('meme_index')] and [redis.set('meme_index', ...)] *)
Definition redis_get_index : M (option (list string)) :=
  redis_call (fun r => (meme_index r, r)).

Definition redis_set_index (ids : list string) : M unit :=
  redis_call (fun r =>
    (tt, {| memes := memes r; meme_index := Some ids;
            category := category r; portfolio := portfolio r |})).

(** [redis.get(`category:${c}`)] and [redis.set(`category:${c}`, ...)] *)
Definition redis_get_category (c : string) : M (option (list string)) :=
  redis_call (fun r => (category r !! c, r)).

Definition redis_set_category (c : string) (ids : list string) : M unit :=
  redis_call (fun r =>
    (tt, {| memes := memes r; meme_index := meme_index r;
            category := <[c := ids]> (category r); portfolio := portfolio r |})).

(** [redis.get(`portfolio:${u}`)] and [redis.set(`portfolio:${u}`, ...)] *)
Definition redis_get_portfolio (u : string) : M (option (gmap string Holding)) :=
  redis_call (fun r => (portfolio r !! u, r)).

Definition redis_set_portfolio (u : string) (p : gmap string Holding) : M unit :=
  redis_call (fun r =>
    (tt, {| memes := memes r; meme_index := meme_index r;
            category := category r; portfolio := <[u := p]> (portfolio r) |})).

(** [reddit.getCurrentUser()] *)
Definition reddit_getCurrentUser : M User :=
  fun w =>
    let (fault, rest) := next_fault (reddit_faults (faults w)) in
    let w1 := set_faults (set_reddit_faults rest (faults w)) w in
    if fault then (Throw RedditError, w1) else (Ok (currentUser (env w)), w1).

(** [reddit.getPostById(postId)]; an unknown post is an error too. *)
Definition reddit_getPostById (pid : string) : M Post :=
  fun w =>
    let (fault, rest) := next_fault (reddit_faults (faults w)) in
    let w1 := set_faults (set_reddit_faults rest (faults w)) w in
    if fault then (Throw RedditError, w1)
    else match posts (env w) !! pid with
         | Some p => (Ok p, w1)
         | None => (Throw RedditError, w1)
         end.

Definition updateJob (id : string) (d : Z) : Job :=
  {| delay := d; jobName := "updateMemeValuation"; payload := id |}.

(** [scheduler.runAfter(delay, 'updateMemeValuation', { memeId })] *)
Definition scheduler_runAfter (d : Z) (id : string) : M unit :=
  fun w =>
    let (fault, rest) := next_fault (scheduler_faults (faults w)) in
    let w1 := set_faults (set_scheduler_faults rest (faults w)) w in
    if fault then (Throw SchedulerError, w1)
    else (Ok tt, set_scheduled (scheduled w ++ [updateJob id d]) w1).

(** Modelled from the spec: [updateMarketHistory] lives in
    [storage/marketHistory], which is not among the sources.  The spec
    describes it as [record(valuation)], a best-effort append of the
    valuation to the market-history sink, which may fail. *)
Definition updateMarketHistory (v : MemeValuation) : M unit :=
  fun w =>
    let (fault, rest) := next_fault (history_faults (faults w)) in
    let w1 := set_faults (set_history_faults rest (faults w)) w in
    if fault then (Throw HistoryError, w1)
    else (Ok tt, set_marketHistory (marketHistory w ++ [v]) w1).

(** [Date.now()] and [new Date().toISOString()] *)
Definition date_now : M Z := fun w => (Ok (clock (env w)), w).

(** [Math.floor(Math.random() * 1000)] *)
Definition random_below_1000 : M Z := fun w => (Ok (random (env w)), w).

(** [console.error(..., error)] *)
Definition console_error (e : Error) : M unit :=
  fun w => (Ok tt, set_console (console w ++ [e]) w).

(** A string used as a condition: [null], [undefined] and the empty string
    are falsy. *)
Definition truthy (s : option string) : option string :=
  match s with
  | Some EmptyString | None => None
  | Some s' => Some s'
  end.

(** ** Issuance: [createMeme] *)

Record CreateMemeArgs := {
  arg_templateId        : string;
  arg_templateUrl       : string;
  arg_title             : string;
  arg_topText           : option string;
  arg_bottomText        : option string;
  arg_categories        : list string;
  arg_initialSharePrice : Q
}.

Definition founderShares : Q := 100.

Definition updateDelay : Z := 3600.

(** [`meme_${Date.now()}_${Math.floor(Math.random() * 1000)}`] *)
Definition makeMemeId (now rnd : Z) : string :=
  "meme_" +:+ pretty now +:+ "_" +:+ pretty rnd.

(** The object literal of lines 34-58. *)
Definition newMemeOf (a : CreateMemeArgs) (u : User) (id : string) (now : Z) : MemeData :=
  {| meme_id := id;
     creatorId := user_id u;
     creatorName := username u;
     createdAt := now;
     templateId := arg_templateId a;
     templateUrl := arg_templateUrl a;
     title := arg_title a;
     topText := default EmptyString (truthy (arg_topText a));
     bottomText := default EmptyString (truthy (arg_bottomText a));
     categories := arg_categories a;
     initialSharePrice := arg_initialSharePrice a;
     currentSharePrice := arg_initialSharePrice a;
     totalShares := 1000;
     availableShares := 1000;
     tradeVolume := 0;
     priceHistory := [ {| timestamp := now; price := arg_initialSharePrice a |} ];
     engagementScore := 10;
     lastUpdated := now;
     postId := None |}.

(** [newMeme.availableShares -= 100] *)
Definition grantFounder (m : MemeData) : MemeData :=
  {| meme_id := meme_id m; creatorId := creatorId m; creatorName := creatorName m;
     createdAt := createdAt m; templateId := templateId m;
     templateUrl := templateUrl m; title := title m; topText := topText m;
     bottomText := bottomText m; categories := categories m;
     initialSharePrice := initialSharePrice m;
     currentSharePrice := currentSharePrice m; totalShares := totalShares m;
     availableShares := availableShares m - founderShares;
     tradeVolume := tradeVolume m; priceHistory := priceHistory m;
     engagementScore := engagementScore m; lastUpdated := lastUpdated m;
     postId := postId m |}.

Definition founderHolding : Holding :=
  {| shares := founderShares; averageBuyPrice := 0 |}.

Definition addToCategory (id c : string) : M unit :=
  let! categoryIndex := redis_get_category c in
  redis_set_category c (default [] categoryIndex ++ [id]).

Definition createMeme (a : CreateMemeArgs) : M MemeData :=
  try_catch
    (let! user := reddit_getCurrentUser in
     let! now := date_now in
     let! rnd := random_below_1000 in
     let id := makeMemeId now rnd in
     let newMeme := newMemeOf a user id now in
     do! redis_set_meme id newMeme in
     let! memeIndex := redis_get_index in
     do! redis_set_index (default [] memeIndex ++ [id]) in
     do! for_of (arg_categories a) (addToCategory id) in
     let! creatorPortfolio := redis_get_portfolio (user_id user) in
     let portfolio' := <[id := founderHolding]> (default ∅ creatorPortfolio) in
     let newMeme' := grantFounder newMeme in
     do! redis_set_meme id newMeme' in
     do! redis_set_portfolio (user_id user) portfolio' in
     do! scheduler_runAfter updateDelay id in
     ret newMeme')
    (fun e => do! console_error e in throw e).

(** ** Valuation: [calculateMemeValue] *)

(** Lines 121-141: the score carried over, replaced by the post's when the
    meme has a post and the fetch succeeds. *)
Definition engagementOf (meme : MemeData) : M Q :=
  let carried := or_default (engagementScore meme) 10 in
  match truthy (postId meme) with
  | Some pid =>
      try_catch
        (let! post := reddit_getPostById pid in
         ret (postEngagement meme post))
        (fun e => do! console_error e in ret carried)
  | None => ret carried
  end.

Definition calculateMemeValue (id : string) : M MemeValuation :=
  try_catch
    (let! memeJson := redis_get_meme id in
     match memeJson with
     | None => throw (MemeNotFound id)
     | Some meme =>
         let! engagement := engagementOf meme in
         let! now := date_now in
         ret (valuate now id meme engagement)
     end)
    (fun e => do! console_error e in throw e).

(** ** The recompute loop: [updateMemeValuation] *)

Definition updateMemeValuation (id : string) : M unit :=
  try_catch
    (let! valuation := calculateMemeValue id in
     let! memeJson := redis_get_meme id in
     match memeJson with
     | None => throw (MemeNotFound id)
     | Some meme =>
         do! redis_set_meme id (commitValuation meme valuation) in
         do! updateMarketHistory valuation in
         scheduler_runAfter updateDelay id
     end)
    (fun e => do! console_error e in scheduler_runAfter updateDelay id).

(** The world after the scheduler has fired the job of [id] [n] times in a
    row. *)
Fixpoint ticks (n : nat) (id : string) (w : World) : World :=
  match n with
  | O => w
  | S n' => ticks n' id (snd (updateMemeValuation id w))
  end.

(** The world after a sequence of recompute passes, one per listed id. *)
Definition recompute_all (ids : list string) (w : World) : World :=
  foldl (fun w' id => snd (updateMemeValuation id w')) w ids.

(** ** Ranking: [getTrendingMemes] *)

(** The loop of lines 261-267. *)
Fixpoint fetchMemes (ids : list string) (acc : list MemeData) : M (list MemeData) :=
  match ids with
  | [] => ret acc
  | id :: rest =>
      let! memeJson := redis_get_meme id in
      fetchMemes rest (match memeJson with
                       | Some m => acc ++ [m]
                       | None => acc
                       end)
  end.

Definition memeIdsToFetch (cat : option string) : M (list string) :=
  match truthy cat with
  | Some c => let! categoryIndex := redis_get_category c in ret (default [] categoryIndex)
  | None => let! memeIndex := redis_get_index in ret (default [] memeIndex)
  end.

(** [limit] defaults to 10 when it is not given. *)
Definition getTrendingMemes (limit : option Z) (cat : option string) : M (list MemeData) :=
  try_catch
    (let! ids := memeIdsToFetch cat in
     let! loaded := fetchMemes ids [] in
     let sortedMemes := js_sort trendingOrder loaded in
     ret (slice_to sortedMemes (default 10%Z limit)))
    (fun e => do! console_error e in ret []).

(** ** Predicates on worlds *)

(** Everything but the console and the Redis and Reddit fault schedules is
    the same in [w'] as in [w]. *)
Definition same_outside_log (w w' : World) : Prop :=
  redis w' = redis w /\ scheduled w' = scheduled w /\
  marketHistory w' = marketHistory w /\ env w' = env w /\
  scheduler_faults (faults w') = scheduler_faults (faults w) /\
  history_faults (faults w') = history_faults (faults w).

(** From [w] to [w'] only category indexes were written. *)
Definition only_categories (w w' : World) : Prop :=
  memes (redis w') = memes (redis w) /\
  meme_index (redis w') = meme_index (redis w) /\
  portfolio (redis w') = portfolio (redis w) /\
  scheduled w' = scheduled w /\ marketHistory w' = marketHistory w /\
  env w' = env w /\
  reddit_faults (faults w') = reddit_faults (faults w) /\
  scheduler_faults (faults w') = scheduler_faults (faults w) /\
  history_faults (faults w') = history_faults (faults w).

(** The store with the record of [id] replaced. *)
Definition with_meme (id : string) (m : MemeData) (r : Redis) : Redis :=
  {| memes := <[id := m]> (memes r); meme_index := meme_index r;
     category := category r; portfolio := portfolio r |}.

(** Every stored meme satisfies [good]. *)
Definition stored_all (good : MemeData -> Prop) (w : World) : Prop :=
  map_Forall (fun _ m => good m) (memes (redis w)).

Definition history_capped (m : MemeData) : Prop :=
  (length (priceHistory m) <= historyCap)%nat.

Definition score_floored (m : MemeData) : Prop := 10 <= engagementScore m.

(** The ids [getTrendingMemes] resolves, and the records it finds for them. *)
Definition candidateIds (cat : option string) (r : Redis) : list string :=
  match truthy cat with
  | Some c => default [] (category r !! c)
  | None => default [] (meme_index r)
  end.

Definition loadedMemes (ids : list string) (r : Redis) : list MemeData :=
  omap (fun id => memes r !! id) ids.

(** ** The marketplace view ([components/Marketplace.tsx]) *)

(** [selectedCategory !== 'all' ? selectedCategory : null] *)
Definition categoryFilter (selectedCategory : string) : option string :=
  if String.eqb selectedCategory "all" then None else Some selectedCategory.

(** The comparators of the four client-side orders. *)
Definition compareNewest (a b : MemeData) : Q :=
  inject_Z (createdAt b) - inject_Z (createdAt a).

Definition comparePriceHigh (a b : MemeData) : Q :=
  currentSharePrice b - currentSharePrice a.

Definition comparePriceLow (a b : MemeData) : Q :=
  currentSharePrice a - currentSharePrice b.

Definition compareVolume (a b : MemeData) : Q :=
  tradeVolume b - tradeVolume a.

(** Lines 56-70 of [loadMemes]: the copy of the server's answer, sorted
    according to [sortBy]. *)
Definition applySorting (sortBy : string) (memeData : list MemeData) : list MemeData :=
  if String.eqb sortBy "trending" then memeData
  else if String.eqb sortBy "new" then js_sort compareNewest memeData
  else if String.eqb sortBy "price-high" then js_sort comparePriceHigh memeData
  else if String.eqb sortBy "price-low" then js_sort comparePriceLow memeData
  else if String.eqb sortBy "volume" then js_sort compareVolume memeData
  else memeData.

(** The state of the [Marketplace] component that [loadMemes] reads and
    writes. *)
Record MarketplaceState := {
  shownMemes       : list MemeData;
  loading          : bool;
  selectedCategory : string;
  sortBy           : string
}.

Definition setLoading (b : bool) (st : MarketplaceState) : MarketplaceState :=
  {| shownMemes := shownMemes st; loading := b;
     selectedCategory := selectedCategory st; sortBy := sortBy st |}.

Definition setMemes (l : list MemeData) (st : MarketplaceState) : MarketplaceState :=
  {| shownMemes := l; loading := loading st;
     selectedCategory := selectedCategory st; sortBy := sortBy st |}.

(** [loadMemes]: the body of the [try], the [catch] that logs, and the
    [finally] that clears the loading flag.  The call of the server
    function is a call of [getTrendingMemes] in the same world, and the
    [catch] logs to the console of that world. *)
Definition loadMemes (st : MarketplaceState) : M MarketplaceState :=
  let st1 := setLoading true st in
  let! st2 :=
    try_catch
      (let! memeData :=
         getTrendingMemes (Some 20%Z) (categoryFilter (selectedCategory st)) in
       ret (setMemes (applySorting (sortBy st) memeData) st1))
      (fun e => do! console_error e in ret st1) in
  ret (setLoading false st2).

(** [getPriceChangeClass] *)
Definition getPriceChangeClass (meme : MemeData) : string :=
  let h := priceHistory meme in
  if (length h <? 2)%nat then "neutral"
  else
    match h !! (length h - 1)%nat, h !! (length h - 2)%nat with
    | Some current, Some previous =>
        let change := price current - price previous in
        if negb (Qle_bool change 0) then "positive"
        else if negb (Qle_bool 0 change) then "negative"
        else "neutral"
    | _, _ => "neutral"
    end.

(** ** The creation form ([components/MemeCreator.tsx]) *)

(** The state update of [handleCategoryChange]:
    [prev.includes(category) ? prev.filter(c => c !== category) : [...prev, category]] *)
Definition toggleCategory (category : string) (prev : list string) : list string :=
  if bool_decide (category ∈ prev)
  then filter (fun c => c ≠ category) prev
  else prev ++ [category].

(** ** Counting and fault schedules *)

(** How often [c] is listed in [cats]. *)
Definition occurrences (c : string) (cats : list string) : nat :=
  length (filter (fun x => x = c) cats).

(** ** Further predicates on stored data *)

(** The current price of [m] is the price of its latest sample. *)
Definition price_is_latest (m : MemeData) : Prop :=
  price <$> last (priceHistory m) = Some (currentSharePrice m).

(** Every id of [ids] has a record in [r]. *)
Definition resolves (r : Redis) (ids : list string) : Prop :=
  Forall (fun id => is_Some (memes r !! id)) ids.

(** No index of the store, global or of a category, lists an id without a
    record. *)
Definition no_dangling (w : World) : Prop :=
  resolves (redis w) (default [] (meme_index (redis w))) /\
  map_Forall (fun _ ids => resolves (redis w) ids) (category (redis w)).


(** ** Sample data *)

Definition alice : User := {| user_id := "t2_alice"; username := "alice" |}.

Definition env0 : Env :=
  {| clock := 1700000000000; random := 42; currentUser := alice; posts := ∅ |}.

Definition noFaults : Faults :=
  {| redis_faults := []; reddit_faults := [];
     scheduler_faults := []; history_faults := [] |}.

Definition emptyRedis : Redis :=
  {| memes := ∅; meme_index := None; category := ∅; portfolio := ∅ |}.

Definition world0 : World :=
  {| redis := emptyRedis; scheduled := []; marketHistory := []; console := [];
     env := env0; faults := noFaults |}.

Definition sampleArgs (p : Q) : CreateMemeArgs :=
  {| arg_templateId := "drake"; arg_templateUrl := "https://i.imgur.com/drake.png";
     arg_title := "stonks"; arg_topText := None; arg_bottomText := Some "hodl";
     arg_categories := ["funny"; "dank"]; arg_initialSharePrice := p |}.

(** A meme as stored, with the given engagement score and current price. *)
Definition sampleMeme (sc p : Q) : MemeData :=
  {| meme_id := "meme_1_1"; creatorId := "t2_alice"; creatorName := "alice";
     createdAt := 1700000000000; templateId := "drake";
     templateUrl := "https://i.imgur.com/drake.png"; title := "stonks";
     topText := "to the moon"; bottomText := "hodl"; categories := ["funny"];
     initialSharePrice := p; currentSharePrice := p; totalShares := 1000;
     availableShares := 900; tradeVolume := 0;
     priceHistory := [ {| timestamp := 1700000000000; price := p |} ];
     engagementScore := sc; lastUpdated := 1700000000000; postId := None |}.

(** The world after [alice] has created a meme at price 10. *)
Definition world1 : World := snd (createMeme (sampleArgs 10) world0).

Definition sampleId : string := "meme_1700000000000_42".

Definition withFaults (f : Faults) (w : World) : World := set_faults f w.

(** Redis is down for the next call. *)
Definition redisDown : Faults :=
  {| redis_faults := [true]; reddit_faults := [];
     scheduler_faults := []; history_faults := [] |}.

(** Redis fails on the third call of a pass: the write of the commit. *)
Definition commitFails : Faults :=
  {| redis_faults := [false; false; true]; reddit_faults := [];
     scheduler_faults := []; history_faults := [] |}.

(** The market-history sink is down. *)
Definition sinkDown : Faults :=
  {| redis_faults := []; reddit_faults := [];
     scheduler_faults := []; history_faults := [true] |}.

(** The scheduler rejects the next two calls. *)
Definition schedulerDown : Faults :=
  {| redis_faults := []; reddit_faults := [];
     scheduler_faults := [true; true]; history_faults := [] |}.

(** A stored meme with the given id and the given successive prices. *)
Definition memeWith (id : string) (prices : list Q) : MemeData :=
  {| meme_id := id; creatorId := "t2_alice"; creatorName := "alice";
     createdAt := 1700000000000; templateId := "drake";
     templateUrl := "https://i.imgur.com/drake.png"; title := "stonks";
     topText := "to the moon"; bottomText := "hodl"; categories := ["funny"];
     initialSharePrice := 10; currentSharePrice := 10; totalShares := 1000;
     availableShares := 900; tradeVolume := 0;
     priceHistory := map (fun p => {| timestamp := 1700000000000; price := p |}) prices;
     engagementScore := 10; lastUpdated := 1700000000000; postId := None |}.

Definition memeUp : MemeData := memeWith "meme_up" [10; 11].
Definition memeFlat : MemeData := memeWith "meme_flat" [10].
Definition memeDown : MemeData := memeWith "meme_down" [10; 9].

(** Three memes, indexed in ascending order of their last change, and one
    index entry whose record is gone. *)
Definition rankingRedis : Redis :=
  {| memes := <["meme_up" := memeUp]> (<["meme_flat" := memeFlat]>
                (<["meme_down" := memeDown]> ∅));
     meme_index := Some ["meme_down"; "meme_gone"; "meme_flat"; "meme_up"];
     category := ∅; portfolio := ∅ |}.

Definition rankingWorld : World :=
  {| redis := rankingRedis; scheduled := []; marketHistory := []; console := [];
     env := env0; faults := noFaults |}.

(** An asset created at price 0 and revalued once, as [createMeme] and one
    recompute pass leave it, beside one that rose by a tenth. *)
Definition memeZero : MemeData := memeWith "meme_zero" [0; 0.1].

Definition zeroPriceRedis : Redis :=
  {| memes := <["meme_zero" := memeZero]> (<["meme_up" := memeUp]> ∅);
     meme_index := Some ["meme_up"; "meme_zero"];
     category := ∅; portfolio := ∅ |}.

Definition zeroPriceWorld : World :=
  {| redis := zeroPriceRedis; scheduled := []; marketHistory := []; console := [];
     env := env0; faults := noFaults |}.

(** Redis answers once and then fails. *)
Definition redisFailsSecond : Faults :=
  {| redis_faults := [false; true]; reddit_faults := [];
     scheduler_faults := []; history_faults := [] |}.

(** The scheduler rejects the next call. *)
Definition schedulerFailsOnce : Faults :=
  {| redis_faults := []; reddit_faults := [];
     scheduler_faults := [true]; history_faults := [] |}.

Definition marketplace0 : MarketplaceState :=
  {| shownMemes := []; loading := false; selectedCategory := "all";
     sortBy := "price-low" |}.


(** ** Proof automation for monadic code *)

Ltac break_inner x :=
  lazymatch x with
  | context [match ?y with _ => _ end] => break_inner y
  | _ => destruct x eqn:?
  end.

Ltac break_match :=
  match goal with
  | |- context [match ?x with _ => _ end] => break_inner x
  | H : context [match ?x with _ => _ end] |- _ => break_inner x
  end.

Ltac unfold_m :=
  unfold try_catch, bind, ret, throw, redis_get_meme, redis_set_meme,
    redis_get_index, redis_set_index, redis_get_category, redis_set_category,
    redis_get_portfolio, redis_set_portfolio, redis_call, reddit_getCurrentUser,
    reddit_getPostById, scheduler_runAfter, updateMarketHistory, date_now,
    random_below_1000, console_error in *.

Ltac run_m := repeat (break_match; simplify_eq/=).

(** * Lemmas *)

(** ** The valuation algorithm *)

Lemma calculatePriceChange_bounds now meme newScore :
  -0.3 <= calculatePriceChange now meme newScore /\
  calculatePriceChange now meme newScore <= 0.3.
Proof.
  unfold calculatePriceChange. split.
  - apply Q.le_max_l.
  - apply Q.max_lub; [lra | apply Q.le_min_l].
Qed.

Lemma newPrice_floor meme pcp : 0.1 <= newPrice meme pcp.
Proof. apply Q.le_max_l. Qed.

Lemma or_default_nonzero x d : ~ d == 0 -> ~ or_default x d == 0.
Proof.
  intros Hd. unfold or_default.
  destruct (Qeq_bool x 0) eqn:E; [exact Hd |].
  now apply Qeq_bool_neq.
Qed.

Lemma or_default_ge x : 10 <= x -> or_default x 10 = x.
Proof.
  intros Hx. unfold or_default.
  destruct (Qeq_bool x 0) eqn:E; [| reflexivity].
  apply Qeq_bool_iff in E. lra.
Qed.

Lemma or_default_floor x : 10 <= x -> 10 <= or_default x 10.
Proof. intros Hx. now rewrite or_default_ge. Qed.

Lemma postEngagement_floor meme post : 10 <= postEngagement meme post.
Proof. apply Q.le_max_l. Qed.

(** With a non-negative age the volatility factor lies between its floor
    and 1; with a non-negative trade volume the volume factor lies between
    1 and its cap. *)
Lemma volatilityFactor_range now meme :
  (createdAt meme <= now)%Z ->
  0.1 <= volatilityFactor now meme /\ volatilityFactor now meme <= 1.
Proof.
  intros Hage. unfold volatilityFactor. split; [apply Q.le_max_l |].
  apply Q.max_lub; [lra |].
  assert (0 <= ageInDays now meme).
  { unfold ageInDays. apply Qle_shift_div_l; [reflexivity |].
    rewrite Qmult_0_l. change 0 with (inject_Z 0). rewrite <- Zle_Qle. lia. }
  lra.
Qed.

Lemma volumeFactor_range meme :
  0 <= tradeVolume meme ->
  1 <= volumeFactor meme /\ volumeFactor meme <= 2.
Proof.
  intros Hvol. unfold volumeFactor. split; [| apply Q.le_min_l].
  apply Q.min_glb; [lra |].
  assert (0 <= tradeVolume meme / 1000).
  { apply Qle_shift_div_l; [reflexivity | lra]. }
  lra.
Qed.

(** C1: for a stored score of at least 10, any new score, a non-negative
    age and a non-negative trade volume, the percent change of a valuation
    lies in [-0.3, 0.3], and the new price, which is
    [max(0.1, currentPrice * (1 + priceChangePercent))], is at least 0.1. *)
Theorem valuation_bounded now id meme newScore :
  10 <= engagementScore meme ->
  (createdAt meme <= now)%Z ->
  0 <= tradeVolume meme ->
  let v := valuate now id meme newScore in
  priceChangePercent v = calculatePriceChange now meme newScore /\
  -0.3 <= priceChangePercent v /\
  priceChangePercent v <= 0.3 /\
  currentPrice v = Qmax 0.1 (currentSharePrice meme * (1 + priceChangePercent v)) /\
  0.1 <= currentPrice v.
Proof.
  intros _ _ _ v. subst v. cbn [valuate priceChangePercent currentPrice].
  destruct (calculatePriceChange_bounds now meme newScore) as [Hlo Hhi].
  repeat split; try assumption.
  apply newPrice_floor.
Qed.

Lemma valuation_bounded_witness :
  let v := valuate 1700086400000 "meme_1_1" (sampleMeme 10 10) 20 in
  -0.3 <= priceChangePercent v /\ priceChangePercent v <= 0.3 /\
  0.1 <= currentPrice v.
Proof.
  intros v.
  destruct (valuation_bounded 1700086400000 "meme_1_1" (sampleMeme 10 10) 20)
    as (_ & Hlo & Hhi & _ & Hp).
  - vm_compute. discriminate.
  - vm_compute. discriminate.
  - vm_compute. discriminate.
  - repeat split; assumption.
Defined.

(** The two worked examples of the valuation algorithm. *)
Example valuation_no_change :
  let v := valuate 1700000000000 "meme_1_1" (sampleMeme 10 10) 10 in
  priceChangePercent v == 0 /\ currentPrice v == 10.
Proof. split; reflexivity. Qed.

Example valuation_score_doubles :
  let m := sampleMeme 10 10 in
  let v := valuate 1700000000000 "meme_1_1" m 20 in
  scoreChangePercent m 20 == 1 /\ volatilityFactor 1700000000000 m == 1 /\
  volumeFactor m == 1 /\ rawPriceChange 1700000000000 m 20 == 1 /\
  priceChangePercent v == 0.3 /\ currentPrice v == 13.
Proof. repeat split; reflexivity. Qed.

(** The divisor of [scoreChangePercent]. *)
Lemma prevEngagementScore_nonzero meme : ~ prevEngagementScore meme == 0.
Proof. apply or_default_nonzero. discriminate. Qed.

(** C5 fails as stated: a stored score strictly between 0 and 10 is used as
    the divisor unchanged. *)
Lemma prevEngagementScore_not_floored :
  prevEngagementScore (sampleMeme 5 10) = 5 /\
  ~ 10 <= prevEngagementScore (sampleMeme 5 10).
Proof. split; [reflexivity | vm_compute; congruence]. Qed.

(** C5, amended: the divisor is 10 when the stored score is zero and the
    stored score itself otherwise; it is therefore never zero, and it is at
    least 10 whenever the stored score is. *)
Theorem prevEngagementScore_default meme :
  ~ prevEngagementScore meme == 0 /\
  (engagementScore meme == 0 -> prevEngagementScore meme = 10) /\
  (~ engagementScore meme == 0 -> prevEngagementScore meme = engagementScore meme) /\
  (10 <= engagementScore meme -> 10 <= prevEngagementScore meme).
Proof.
  split; [apply prevEngagementScore_nonzero |].
  unfold prevEngagementScore, or_default.
  destruct (Qeq_bool (engagementScore meme) 0) eqn:E.
  - apply Qeq_bool_iff in E. split; [| split]; intros H.
    + reflexivity.
    + now destruct H.
    + lra.
  - pose proof (Qeq_bool_neq _ _ E) as Hne. split; [| split]; intros H.
    + now destruct Hne.
    + reflexivity.
    + assumption.
Qed.

Lemma prevEngagementScore_default_witness :
  prevEngagementScore (sampleMeme 0 10) = 10 /\
  prevEngagementScore (sampleMeme (-4) 10) = -4 /\
  10 <= prevEngagementScore (sampleMeme 25 10).
Proof.
  split; [| split].
  - apply (prevEngagementScore_default (sampleMeme 0 10)). reflexivity.
  - apply (prevEngagementScore_default (sampleMeme (-4) 10)). vm_compute. discriminate.
  - apply (prevEngagementScore_default (sampleMeme 25 10)). vm_compute. discriminate.
Defined.

(** ** The price history *)

Lemma pushCapped_length h s : (length (pushCapped h s) <= historyCap)%nat.
Proof.
  unfold pushCapped, slice_from.
  destruct (historyCap <? length (h ++ [s]))%nat eqn:E.
  - apply Nat.ltb_lt in E. rewrite length_drop. lia.
  - apply Nat.ltb_ge in E. exact E.
Qed.

Lemma pushCapped_suffix h s :
  h ++ [s] = take (length h + 1 - historyCap) (h ++ [s]) ++ pushCapped h s.
Proof.
  unfold pushCapped, slice_from. rewrite length_app. cbn [length].
  destruct (historyCap <? length h + 1)%nat eqn:E.
  - now rewrite take_drop.
  - apply Nat.ltb_ge in E.
    replace (length h + 1 - historyCap)%nat with 0%nat by lia.
    reflexivity.
Qed.

Lemma pushCapped_last h s : last (pushCapped h s) = Some s.
Proof.
  unfold pushCapped, slice_from.
  destruct (historyCap <? length (h ++ [s]))%nat eqn:E.
  - rewrite length_app. cbn [length].
    rewrite drop_app_le by (unfold historyCap; lia).
    apply last_snoc.
  - apply last_snoc.
Qed.

Lemma pushCapped_below h s :
  (length h < historyCap)%nat -> pushCapped h s = h ++ [s].
Proof.
  intros H. unfold pushCapped. rewrite length_app. cbn [length].
  destruct (historyCap <? length h + 1)%nat eqn:E; [| reflexivity].
  apply Nat.ltb_lt in E. lia.
Qed.

(** ** Sorting and slicing *)

Section SortPermutation.

Context {A : Type}.

Lemma sort_insert_perm (cmp : A -> A -> Q) x l :
  Permutation (sort_insert cmp x l) (x :: l).
Proof.
  induction l as [| y l IH]; cbn [sort_insert]; [reflexivity |].
  destruct (Qle_bool (cmp x y) 0); [reflexivity |].
  rewrite IH. apply perm_swap.
Qed.

Lemma js_sort_perm (cmp : A -> A -> Q) l : Permutation (js_sort cmp l) l.
Proof.
  induction l as [| x l IH]; cbn; [reflexivity |].
  fold (js_sort cmp l). rewrite sort_insert_perm. now constructor.
Qed.

End SortPermutation.

Lemma slice_to_zero {A} (l : list A) : slice_to l 0 = [].
Proof. unfold slice_to. cbn. now rewrite Z.min_l by lia. Qed.

Lemma slice_to_length_pos {A} (l : list A) (e : Z) :
  (0 <= e)%Z -> (Z.of_nat (length (slice_to l e)) <= e)%Z.
Proof.
  intros He. unfold slice_to.
  destruct (e <? 0)%Z eqn:E; [apply Z.ltb_lt in E; lia |].
  rewrite length_take. lia.
Qed.

Lemma slice_to_length_neg {A} (l : list A) (e : Z) :
  (e < 0)%Z ->
  Z.of_nat (length (slice_to l e)) = Z.max (Z.of_nat (length l) + e) 0.
Proof.
  intros He. unfold slice_to.
  apply Z.ltb_lt in He. rewrite He. rewrite length_take. lia.
Qed.

(** ** The ranking metric *)

Lemma getChangePercent_short meme :
  (length (priceHistory meme) < 2)%nat -> getChangePercent meme = Finite 0.
Proof.
  intros H. unfold getChangePercent.
  apply Nat.ltb_lt in H. now rewrite H.
Qed.

Lemma getChangePercent_last_two meme h previous current :
  priceHistory meme = h ++ [previous; current] ->
  getChangePercent meme = js_div (price current - price previous) (price previous).
Proof.
  intros H. unfold getChangePercent. rewrite H.
  rewrite length_app. cbn [length].
  replace (length h + 2 <? 2)%nat with false by (symmetry; apply Nat.ltb_ge; lia).
  replace (length h + 2 - 1)%nat with (length h + 1)%nat by lia.
  replace (length h + 2 - 2)%nat with (length h + 0)%nat by lia.
  rewrite !lookup_app_r by lia.
  replace (length h + 1 - length h)%nat with 1%nat by lia.
  replace (length h + 0 - length h)%nat with 0%nat by lia.
  reflexivity.
Qed.

Lemma js_div_nonzero x y : ~ y == 0 -> js_div x y = Finite (x / y).
Proof.
  intros Hy. unfold js_div.
  destruct (Qeq_bool y 0) eqn:E; [| reflexivity].
  apply Qeq_bool_iff in E. contradiction.
Qed.

Lemma js_div_zero x y :
  y == 0 ->
  (0 < x -> js_div x y = PosInfinity) /\
  (x < 0 -> js_div x y = NegInfinity) /\
  (x == 0 -> js_div x y = NotANumber).
Proof.
  intros Hy. unfold js_div.
  apply Qeq_bool_iff in Hy. rewrite Hy.
  destruct (Qle_bool x 0) eqn:E1; cbn [negb].
  - apply Qle_bool_iff in E1.
    destruct (Qle_bool 0 x) eqn:E2; cbn [negb].
    + apply Qle_bool_iff in E2. repeat split; intros; first [reflexivity | lra].
    + assert (x < 0).
      { destruct (Qlt_le_dec x 0) as [Hlt | Hle]; [exact Hlt |].
        apply Qle_bool_iff in Hle. congruence. }
      repeat split; intros; first [reflexivity | lra].
  - assert (0 < x).
    { destruct (Qlt_le_dec 0 x) as [Hlt | Hle]; [exact Hlt |].
      apply Qle_bool_iff in Hle. congruence. }
    repeat split; intros; first [reflexivity | lra].
Qed.

(** The metric is [NaN] only for an asset whose last sample has price 0. *)
Lemma getChangePercent_defined meme s :
  last (priceHistory meme) = Some s -> ~ price s == 0 ->
  getChangePercent meme <> NotANumber.
Proof.
  intros Hlast Hs.
  destruct (priceHistory meme) as [| a l] eqn:Hh using rev_ind; [discriminate |].
  clear IHl. rewrite last_snoc in Hlast. simplify_eq.
  destruct l as [| b l _] using rev_ind.
  - rewrite getChangePercent_short by (rewrite Hh; cbn; lia). discriminate.
  - rewrite <- app_assoc in Hh. cbn in Hh.
    rewrite (getChangePercent_last_two meme l b s Hh).
    unfold js_div. destruct (Qeq_bool (price b) 0) eqn:E; [| discriminate].
    apply Qeq_bool_iff in E.
    destruct (Qle_bool (price s - price b) 0) eqn:E1; cbn [negb]; [| discriminate].
    destruct (Qle_bool 0 (price s - price b)) eqn:E2; cbn [negb]; [| discriminate].
    apply Qle_bool_iff in E1, E2. exfalso. apply Hs. lra.
Qed.

(** The order [sort] reads off the comparator agrees with the order of the
    metric, as long as no [NaN] is compared. *)
Lemma comparatorSign_le u v :
  u <> NotANumber -> v <> NotANumber ->
  Qle_bool (comparatorSign (js_sub v u)) 0 = true -> js_le v u.
Proof.
  intros Hu Hv H. apply Qle_bool_iff in H.
  destruct u, v; cbn in *; try congruence; try exact I; try lra.
Qed.

Lemma comparatorSign_gt u v :
  u <> NotANumber -> v <> NotANumber ->
  Qle_bool (comparatorSign (js_sub v u)) 0 = false -> js_le u v.
Proof.
  intros Hu Hv H.
  assert (H' : 0 < comparatorSign (js_sub v u)).
  { destruct (Qlt_le_dec 0 (comparatorSign (js_sub v u))) as [Hlt | Hle]; [exact Hlt |].
    apply Qle_bool_iff in Hle. congruence. }
  destruct u, v; cbn in *; try congruence; try exact I; try lra.
Qed.

Lemma js_le_trans x y z : js_le x y -> js_le y z -> js_le x z.
Proof.
  destruct x, y, z; cbn; intros; try contradiction; try exact I; lra.
Qed.

Section SortOn.

Context {A : Type} (cmp : A -> A -> Q) (R : A -> A -> Prop) (P : A -> Prop).
Hypothesis cmp_le : forall a b, P a -> P b -> Qle_bool (cmp a b) 0 = true -> R a b.
Hypothesis cmp_gt : forall a b, P a -> P b -> Qle_bool (cmp a b) 0 = false -> R b a.
Hypothesis R_trans : forall a b c, R a b -> R b c -> R a c.

Lemma sort_insert_sorted_on x l :
  P x -> Forall P l -> StronglySorted R l -> StronglySorted R (sort_insert cmp x l).
Proof.
  intros Hx Hl Hs. induction Hs as [| y l Hs IH Hy]; cbn [sort_insert].
  - repeat constructor.
  - apply Forall_cons in Hl as [Hpy Hl].
    destruct (Qle_bool (cmp x y) 0) eqn:E.
    + constructor; [now constructor |].
      constructor; [now apply cmp_le |].
      eapply Forall_impl; [exact Hy |].
      intros z Hz. eapply R_trans; [apply cmp_le; [exact Hx | exact Hpy | exact E] | exact Hz].
    + constructor; [now apply IH |].
      rewrite (sort_insert_perm cmp x l). constructor; [now apply cmp_gt | exact Hy].
Qed.

Lemma js_sort_sorted_on l : Forall P l -> StronglySorted R (js_sort cmp l).
Proof.
  induction l as [| x l IH]; intros Hl; cbn; [constructor |].
  apply Forall_cons in Hl as [Hx Hl].
  apply sort_insert_sorted_on; [exact Hx | | now apply IH].
  fold (js_sort cmp l). now rewrite (js_sort_perm cmp l).
Qed.

End SortOn.

Lemma js_sort_trending_sorted l :
  Forall (fun m => getChangePercent m <> NotANumber) l ->
  StronglySorted (fun a b => js_le (getChangePercent b) (getChangePercent a))
                 (js_sort trendingOrder l).
Proof.
  apply js_sort_sorted_on.
  - intros a b Ha Hb. unfold trendingOrder, compareTrending.
    now apply comparatorSign_le.
  - intros a b Ha Hb. unfold trendingOrder, compareTrending.
    now apply comparatorSign_gt.
  - intros a b c Hab Hbc. eapply js_le_trans; eassumption.
Qed.

(** ** [calculateMemeValue] *)

Lemma calculateMemeValue_frame id w :
  same_outside_log w (snd (calculateMemeValue id w)).
Proof.
  unfold calculateMemeValue, engagementOf, same_outside_log. unfold_m.
  run_m; repeat split; reflexivity.
Qed.

Lemma calculateMemeValue_ok id w v w' :
  calculateMemeValue id w = (Ok v, w') ->
  exists m e,
    memes (redis w) !! id = Some m /\
    v = valuate (clock (env w)) id m e /\
    (e = or_default (engagementScore m) 10 \/ exists p, e = postEngagement m p).
Proof.
  unfold calculateMemeValue, engagementOf. unfold_m.
  run_m; intros; simplify_eq/=; eauto 10.
Qed.

(** Whatever [calculateMemeValue] returns respects the bounds of the
    algorithm. *)
Lemma calculateMemeValue_bounded id w v w' :
  calculateMemeValue id w = (Ok v, w') ->
  -0.3 <= priceChangePercent v /\ priceChangePercent v <= 0.3 /\
  0.1 <= currentPrice v.
Proof.
  intros Hc.
  destruct (calculateMemeValue_ok _ _ _ _ Hc) as (m & e & _ & -> & _).
  cbn [valuate priceChangePercent currentPrice].
  destruct (calculatePriceChange_bounds (clock (env w)) m e) as [Hlo Hhi].
  repeat split; try assumption. apply newPrice_floor.
Qed.

Lemma calculateMemeValue_missing id w :
  memes (redis w) !! id = None ->
  exists e, fst (calculateMemeValue id w) = Throw e.
Proof.
  intros Hm. unfold calculateMemeValue. unfold_m.
  rewrite Hm. run_m; eauto.
Qed.

Lemma calculateMemeValue_total id w m :
  redis_faults (faults w) = [] ->
  memes (redis w) !! id = Some m ->
  exists v w',
    calculateMemeValue id w = (Ok v, w') /\ redis_faults (faults w') = [].
Proof.
  intros Hf Hm. unfold calculateMemeValue, engagementOf. unfold_m.
  rewrite Hf, Hm. cbn. run_m; eauto.
Qed.

(** ** [updateMemeValuation] *)

Lemma updateMemeValuation_store id w :
  let w' := snd (updateMemeValuation id w) in
  redis w' = redis w \/
  exists m v w1,
    memes (redis w) !! id = Some m /\
    calculateMemeValue id w = (Ok v, w1) /\
    redis w' = with_meme id (commitValuation m v) (redis w).
Proof.
  unfold updateMemeValuation.
  pose proof (calculateMemeValue_frame id w) as Hfr.
  unfold try_catch at 1. unfold bind at 1.
  destruct (calculateMemeValue id w) as [[v | e] w1] eqn:Hc;
    destruct Hfr as (Hr & _); cbn [snd] in Hr.
  - unfold_m. run_m; rewrite ?Hr in *; eauto 10.
  - unfold_m. run_m; rewrite ?Hr in *; eauto.
Qed.

Lemma updateMemeValuation_rearm_once id w :
  scheduler_faults (faults w) = [] ->
  fst (updateMemeValuation id w) = Ok tt /\
  scheduled (snd (updateMemeValuation id w)) = scheduled w ++ [updateJob id 3600] /\
  scheduler_faults (faults (snd (updateMemeValuation id w))) = [].
Proof.
  intros Hs. unfold updateMemeValuation.
  pose proof (calculateMemeValue_frame id w) as Hfr.
  unfold try_catch at 1. unfold bind at 1.
  destruct (calculateMemeValue id w) as [[v | e] w1] eqn:Hc;
    destruct Hfr as (_ & Hj & _ & _ & Hsf & _); cbn [snd] in Hj, Hsf;
    rewrite Hs in Hsf.
  - unfold_m. run_m; rewrite ?Hsf in *; simplify_eq/=; rewrite ?Hj; auto.
  - unfold_m. run_m; rewrite ?Hsf in *; simplify_eq/=; rewrite ?Hj; auto.
Qed.

Lemma ticks_rearm n : forall id w,
  scheduler_faults (faults w) = [] ->
  scheduled (ticks n id w) = scheduled w ++ replicate n (updateJob id 3600).
Proof.
  induction n as [| n IH]; intros id w Hs; cbn [ticks replicate].
  - now rewrite app_nil_r.
  - destruct (updateMemeValuation_rearm_once id w Hs) as (_ & Hj & Hs').
    rewrite IH by exact Hs'. rewrite Hj, <- app_assoc. reflexivity.
Qed.

Lemma updateMemeValuation_stored_all (good : MemeData -> Prop) id w :
  (forall m v w1,
     memes (redis w) !! id = Some m -> calculateMemeValue id w = (Ok v, w1) ->
     good (commitValuation m v)) ->
  stored_all good w -> stored_all good (snd (updateMemeValuation id w)).
Proof.
  intros Hgood Hw. unfold stored_all in *.
  destruct (updateMemeValuation_store id w) as [-> | (m & v & w1 & Hm & Hc & ->)];
    [exact Hw |].
  cbn. apply map_Forall_insert_2; [| exact Hw].
  eapply Hgood; eassumption.
Qed.

Lemma calculateMemeValue_score_floor id w v w' :
  calculateMemeValue id w = (Ok v, w') ->
  (forall m, memes (redis w) !! id = Some m -> 10 <= engagementScore m) ->
  10 <= newEngagementScore v.
Proof.
  intros Hc Hm.
  destruct (calculateMemeValue_ok _ _ _ _ Hc) as (m & e & Hl & -> & He).
  cbn. destruct He as [-> | [p ->]].
  - apply or_default_floor. now apply Hm.
  - apply postEngagement_floor.
Qed.

(** ** [createMeme] *)

Lemma category_loop id cats : forall w,
  only_categories w (snd (for_of cats (addToCategory id) w)).
Proof.
  induction cats as [| c cats IH]; intros w.
  - repeat split.
  - cbn [for_of]. unfold bind at 1.
    destruct (addToCategory id c w) as [[[] | e] w1] eqn:Hc.
    + specialize (IH w1).
      assert (H1 : only_categories w w1).
      { revert Hc. unfold addToCategory. unfold_m.
        run_m; intros; simplify_eq/=; repeat split. }
      unfold only_categories in *.
      destruct IH as (-> & -> & -> & -> & -> & -> & -> & -> & ->).
      exact H1.
    + revert Hc. unfold addToCategory. unfold_m.
      run_m; intros; simplify_eq/=; repeat split.
Qed.

Lemma category_loop_total id cats : forall w,
  redis_faults (faults w) = [] ->
  fst (for_of cats (addToCategory id) w) = Ok tt /\
  redis_faults (faults (snd (for_of cats (addToCategory id) w))) = [].
Proof.
  induction cats as [| c cats IH]; intros w Hf.
  - split; [reflexivity | exact Hf].
  - cbn [for_of]. unfold bind.
    destruct (addToCategory id c w) as [r w1] eqn:Hc.
    assert (H1 : r = Ok tt /\ redis_faults (faults w1) = []).
    { revert Hc. unfold addToCategory. unfold_m. rewrite Hf. cbn.
      intros; simplify_eq/=. split; reflexivity. }
    destruct H1 as [-> H1]. now apply IH.
Qed.

Ltac use_category_loop :=
  repeat match goal with
    | H : for_of ?cats (addToCategory ?id) ?w = (_, ?w') |- _ =>
        let Hl := fresh "Hloop" in
        pose proof (category_loop id cats w) as Hl;
        rewrite H in Hl; cbn [snd] in Hl;
        destruct Hl as (? & ? & ? & ? & ? & ? & ? & ? & ?);
        clear H
    end.

Lemma createMeme_ok a w m w' :
  createMeme a w = (Ok m, w') ->
  let u := currentUser (env w) in
  let id := makeMemeId (clock (env w)) (random (env w)) in
  m = grantFounder (newMemeOf a u id (clock (env w))) /\
  memes (redis w') !! id = Some m /\
  portfolio (redis w') !! user_id u =
    Some (<[id := founderHolding]> (default ∅ (portfolio (redis w) !! user_id u))) /\
  scheduled w' = scheduled w ++ [updateJob id updateDelay].
Proof.
  unfold createMeme. unfold_m.
  run_m; intros; simplify_eq/=.
  use_category_loop. cbn in *.
  repeat split.
  - apply lookup_insert_eq.
  - rewrite lookup_insert_eq. congruence.
  - congruence.
Qed.

Lemma createMeme_total a w :
  redis_faults (faults w) = [] ->
  reddit_faults (faults w) = [] ->
  scheduler_faults (faults w) = [] ->
  exists m w', createMeme a w = (Ok m, w').
Proof.
  intros Hr Hd Hs. unfold createMeme. unfold_m.
  rewrite Hd. cbn. rewrite Hr. cbn.
  match goal with
  | |- context [for_of ?cats (addToCategory ?id) ?w0] =>
      destruct (category_loop_total id cats w0 eq_refl) as [Hok Hf];
      pose proof (category_loop id cats w0) as Hl;
      destruct (for_of cats (addToCategory id) w0) as [r w1]
  end.
  cbn [fst snd] in *. subst r.
  destruct Hl as (_ & _ & _ & _ & _ & _ & _ & Hsf & _). cbn in Hsf.
  rewrite Hf. cbn. rewrite Hsf, Hs. cbn. eauto.
Qed.

Lemma category_loop_throw id cats : forall w e w',
  for_of cats (addToCategory id) w = (Throw e, w') -> e = RedisError.
Proof.
  induction cats as [| c cats IH]; intros w e w'.
  - intros; simplify_eq/=.
  - cbn [for_of]. unfold bind at 1.
    destruct (addToCategory id c w) as [[[] | e1] w1] eqn:Hc.
    + apply IH.
    + intros; simplify_eq/=. revert Hc. unfold addToCategory. unfold_m.
      run_m; intros; simplify_eq/=; reflexivity.
Qed.

Lemma createMeme_throw a w e :
  fst (createMeme a w) = Throw e ->
  e = RedisError \/ e = RedditError \/ e = SchedulerError.
Proof.
  unfold createMeme. unfold_m.
  run_m; intros; simplify_eq/=; auto.
  left. eapply category_loop_throw. eassumption.
Qed.

Lemma createMeme_stored_all (good : MemeData -> Prop) a w :
  (forall u id now, good (newMemeOf a u id now)) ->
  (forall m, good m -> good (grantFounder m)) ->
  stored_all good w -> stored_all good (snd (createMeme a w)).
Proof.
  intros Hnew Hgrant Hw. unfold stored_all in *. unfold createMeme. unfold_m.
  run_m; use_category_loop; cbn in *;
    repeat match goal with
      | H : memes _ = _ |- _ => rewrite H
      end;
    repeat apply map_Forall_insert_2; auto.
Qed.

(** ** [getTrendingMemes] *)

Lemma fetchMemes_loaded ids : forall acc w,
  redis_faults (faults w) = [] ->
  exists w',
    fetchMemes ids acc w = (Ok (acc ++ loadedMemes ids (redis w)), w') /\
    redis w' = redis w /\ redis_faults (faults w') = [].
Proof.
  induction ids as [| id ids IH]; intros acc w Hf.
  - exists w. cbn. unfold ret. rewrite app_nil_r. auto.
  - cbn [fetchMemes]. unfold_m. rewrite Hf. cbn.
    match goal with
    | |- context [fetchMemes ids ?acc' ?w1] =>
        destruct (IH acc' w1 eq_refl) as (w' & -> & Hr & Hf')
    end.
    exists w'. cbn in Hr. split; [| auto].
    unfold loadedMemes. cbn [omap].
    destruct (memes (redis w) !! id); cbn; [rewrite <- app_assoc |]; reflexivity.
Qed.

Lemma memeIdsToFetch_candidates cat w :
  redis_faults (faults w) = [] ->
  exists w',
    memeIdsToFetch cat w = (Ok (candidateIds cat (redis w)), w') /\
    redis w' = redis w /\ redis_faults (faults w') = [].
Proof.
  intros Hf. unfold memeIdsToFetch, candidateIds. unfold_m.
  destruct (truthy cat); rewrite Hf; cbn; eauto.
Qed.

Lemma getTrendingMemes_shape limit cat w :
  fst (getTrendingMemes limit cat w) = Ok [] \/
  exists loaded,
    fst (getTrendingMemes limit cat w) =
      Ok (slice_to (js_sort trendingOrder loaded) (default 10%Z limit)).
Proof.
  unfold getTrendingMemes, try_catch, bind.
  destruct (memeIdsToFetch cat w) as [[ids | e] w1]; [| left; reflexivity].
  destruct (fetchMemes ids [] w1) as [[loaded | e] w2]; [| left; reflexivity].
  right. exists loaded. reflexivity.
Qed.

Lemma getTrendingMemes_fault_free limit cat w :
  redis_faults (faults w) = [] ->
  fst (getTrendingMemes limit cat w) =
    Ok (slice_to (js_sort trendingOrder
                    (loadedMemes (candidateIds cat (redis w)) (redis w)))
                 (default 10%Z limit)).
Proof.
  intros Hf. unfold getTrendingMemes, try_catch, bind.
  destruct (memeIdsToFetch_candidates cat w Hf) as (w1 & -> & Hr1 & Hf1).
  destruct (fetchMemes_loaded (candidateIds cat (redis w)) [] w1 Hf1)
    as (w2 & -> & Hr2 & Hf2).
  cbn. now rewrite Hr1.
Qed.

Lemma getTrendingMemes_zero cat w : fst (getTrendingMemes (Some 0%Z) cat w) = Ok [].
Proof.
  destruct (getTrendingMemes_shape (Some 0%Z) cat w) as [H | [loaded H]];
    [exact H |].
  rewrite H. cbn [default]. now rewrite slice_to_zero.
Qed.

Lemma getTrendingMemes_at_most limit cat w :
  (0 <= limit)%Z ->
  exists l, fst (getTrendingMemes (Some limit) cat w) = Ok l /\
            (Z.of_nat (length l) <= limit)%Z.
Proof.
  intros Hl.
  destruct (getTrendingMemes_shape (Some limit) cat w) as [H | [loaded H]];
    rewrite H; eexists; (split; [reflexivity |]).
  - cbn. lia.
  - now apply slice_to_length_pos.
Qed.

Lemma updateMemeValuation_commits id w m :
  redis_faults (faults w) = [] ->
  memes (redis w) !! id = Some m ->
  exists v,
    fst (calculateMemeValue id w) = Ok v /\
    redis (snd (updateMemeValuation id w)) =
      with_meme id (commitValuation m v) (redis w).
Proof.
  intros Hf Hm.
  destruct (calculateMemeValue_total id w m Hf Hm) as (v & w1 & Hc & Hf1).
  pose proof (calculateMemeValue_frame id w) as (Hr & _).
  rewrite Hc in Hr. cbn [snd] in Hr.
  exists v. rewrite Hc. split; [reflexivity |].
  unfold updateMemeValuation. unfold try_catch at 1. unfold bind at 1.
  rewrite Hc. unfold_m. rewrite Hf1, Hr, Hm. cbn.
  run_m; rewrite ?Hr; reflexivity.
Qed.

(** * Properties of the engine *)

(** ** Issuance *)

(** C2 fails as stated: a creation request with a non-positive initial price
    is not rejected; the asset is created at that price, stored and
    returned. *)
Lemma createMeme_accepts_nonpositive_price :
  arg_initialSharePrice (sampleArgs (-5)) <= 0 /\
  exists m,
    fst (createMeme (sampleArgs (-5)) world0) = Ok m /\
    currentSharePrice m = -5 /\
    memes (redis (snd (createMeme (sampleArgs (-5)) world0))) !! sampleId = Some m.
Proof.
  split; [vm_compute; discriminate |].
  eexists. split; [vm_compute; reflexivity |].
  split; vm_compute; reflexivity.
Qed.

(** C2, amended: [createMeme] does not look at the sign of the initial
    price.  Whenever Reddit, Redis and the scheduler answer, it creates the
    asset at the requested price, positive or not, stores it and returns it;
    the only errors it raises are those of its collaborators, passed on to
    the caller. *)
Theorem createMeme_no_price_validation a w :
  (redis_faults (faults w) = [] ->
   reddit_faults (faults w) = [] ->
   scheduler_faults (faults w) = [] ->
   exists m w',
     createMeme a w = (Ok m, w') /\
     initialSharePrice m = arg_initialSharePrice a /\
     currentSharePrice m = arg_initialSharePrice a /\
     memes (redis w') !! meme_id m = Some m) /\
  (forall e, fst (createMeme a w) = Throw e ->
             e = RedisError \/ e = RedditError \/ e = SchedulerError).
Proof.
  split; [| intros e; apply createMeme_throw].
  intros Hr Hd Hs.
  destruct (createMeme_total a w Hr Hd Hs) as (m & w' & Hc).
  exists m, w'. split; [exact Hc |].
  destruct (createMeme_ok a w m w' Hc) as (-> & Hm & _).
  cbn. repeat split. exact Hm.
Qed.

Lemma createMeme_no_price_validation_witness :
  exists m w',
    createMeme (sampleArgs (-5)) world0 = (Ok m, w') /\
    initialSharePrice m = -5 /\
    currentSharePrice m = -5 /\
    memes (redis w') !! meme_id m = Some m.
Proof.
  apply (createMeme_no_price_validation (sampleArgs (-5)) world0); reflexivity.
Defined.

(** C6: the asset returned by a successful [createMeme] has 1000 shares in
    total, no trade volume, engagement score 10 and a price history of
    exactly one sample, at the initial price; the founder's 100 shares are
    a tenth of the total, the available shares are the total less the
    founder's, and the creator's portfolio holds 100 shares of the new
    asset at average price 0. *)
Theorem createMeme_issuance a w m w' :
  createMeme a w = (Ok m, w') ->
  totalShares m = 1000 /\
  tradeVolume m = 0 /\
  engagementScore m = 10 /\
  priceHistory m =
    [ {| timestamp := clock (env w); price := arg_initialSharePrice a |} ] /\
  founderShares = 100 /\
  founderShares == 0.1 * totalShares m /\
  availableShares m == totalShares m - founderShares /\
  creatorId m = user_id (currentUser (env w)) /\
  portfolio (redis w') !! creatorId m ≫= (.!! meme_id m) =
    Some {| shares := 100; averageBuyPrice := 0 |}.
Proof.
  intros Hc.
  destruct (createMeme_ok a w m w' Hc) as (-> & _ & Hp & _).
  cbn. repeat split. rewrite Hp. cbn. apply lookup_insert_eq.
Qed.

Lemma createMeme_issuance_witness :
  let m := grantFounder (newMemeOf (sampleArgs 10) alice sampleId 1700000000000) in
  availableShares m == totalShares m - founderShares /\
  portfolio (redis world1) !! creatorId m ≫= (.!! meme_id m) =
    Some {| shares := 100; averageBuyPrice := 0 |}.
Proof.
  intros m.
  destruct (createMeme_issuance (sampleArgs 10) world0 m world1)
    as (_ & _ & _ & _ & _ & _ & Ha & _ & Hp).
  - vm_compute. reflexivity.
  - split; [exact Ha | exact Hp].
Defined.

(** ** The recompute loop *)

Lemma recompute_all_stored_all (good : MemeData -> Prop) ids :
  (forall m v, good (commitValuation m v)) ->
  forall w, stored_all good w -> stored_all good (recompute_all ids w).
Proof.
  intros Hgood. unfold recompute_all.
  induction ids as [| id ids IH]; intros w Hw; cbn [foldl]; [exact Hw |].
  apply IH. apply updateMemeValuation_stored_all; [| exact Hw].
  intros m v _ _ _. apply Hgood.
Qed.

(** C3: a commit leaves at most 24 samples in the price history, whatever
    its length was; the new sample is the last entry; what the commit keeps
    is a suffix of the old history followed by the new sample, so the
    entries dropped are the oldest.  Hence, from a store whose histories
    hold at most 24 samples (a new asset has one), any sequence of
    creations and recompute passes leads to such a store again. *)
Theorem priceHistory_capped m v a ids w :
  let old := priceHistory m in
  let sample := {| timestamp := valuationTimestamp v; price := currentPrice v |} in
  let new := priceHistory (commitValuation m v) in
  ((length new <= 24)%nat /\
   last new = Some sample /\
   old ++ [sample] = take (length old + 1 - 24) (old ++ [sample]) ++ new /\
   ((length old < 24)%nat -> new = old ++ [sample])) /\
  (stored_all history_capped w ->
   stored_all history_capped (snd (createMeme a w)) /\
   stored_all history_capped (recompute_all ids w)).
Proof.
  cbn zeta. split.
  - cbn [commitValuation priceHistory]. repeat split.
    + apply pushCapped_length.
    + apply pushCapped_last.
    + apply pushCapped_suffix.
    + apply pushCapped_below.
  - intros Hw. split.
    + apply createMeme_stored_all; [| | exact Hw].
      * intros. unfold history_capped, historyCap. cbn. lia.
      * intros m0 Hm0. exact Hm0.
    + apply recompute_all_stored_all; [| exact Hw].
      intros m0 v0. apply pushCapped_length.
Qed.

Lemma priceHistory_capped_witness :
  stored_all history_capped (recompute_all (replicate 30 sampleId) world1) /\
  (length (priceHistory memeUp) < 24)%nat.
Proof.
  split.
  - apply (priceHistory_capped memeUp
             (valuate 1700003600000 "meme_up" memeUp 10) (sampleArgs 10)
             (replicate 30 sampleId) world1).
    unfold stored_all, history_capped.
    apply (bool_decide_unpack _). vm_compute. exact I.
  - cbn. lia.
Defined.

(** C4: with a scheduler that accepts jobs, a recompute pass never fails
    towards its caller and schedules exactly one further pass for the same
    id with delay 3600, whatever happens to the load, the valuation and the
    commit; so after any number of passes there is a job left for the next
    one. *)
Theorem updateMemeValuation_rearms id w :
  scheduler_faults (faults w) = [] ->
  fst (updateMemeValuation id w) = Ok tt /\
  scheduled (snd (updateMemeValuation id w)) =
    scheduled w ++
    [ {| delay := 3600; jobName := "updateMemeValuation"; payload := id |} ] /\
  forall n,
    scheduled (ticks n id w) =
      scheduled w ++
      replicate n {| delay := 3600; jobName := "updateMemeValuation"; payload := id |}.
Proof.
  intros Hs. destruct (updateMemeValuation_rearm_once id w Hs) as (Hok & Hj & _).
  repeat split; [exact Hok | exact Hj |].
  intros n. now apply ticks_rearm.
Qed.

Lemma updateMemeValuation_rearms_witness :
  fst (updateMemeValuation sampleId world1) = Ok tt /\
  scheduled (snd (updateMemeValuation sampleId world1)) =
    [ updateJob sampleId 3600; updateJob sampleId 3600 ].
Proof.
  destruct (updateMemeValuation_rearms sampleId world1) as (Hok & Hj & _).
  - reflexivity.
  - split; [exact Hok | exact Hj].
Defined.

(** The three outcomes of a pass, on concrete worlds: the commit, an asset
    that is missing, and a failure of Redis on the load, of Redis on the
    write of the commit, and of the market-history sink. *)
Example pass_commits :
  let w' := snd (updateMemeValuation sampleId world1) in
  (exists m, memes (redis w') !! sampleId = Some m /\
             length (priceHistory m) = 2%nat /\ currentSharePrice m == 10) /\
  length (marketHistory w') = 1%nat /\ console w' = [].
Proof.
  split; [| vm_compute; split; reflexivity].
  eexists. split; [vm_compute; reflexivity |]. split; reflexivity.
Qed.

Example pass_asset_missing :
  let r := updateMemeValuation "meme_gone" world1 in
  fst r = Ok tt /\
  console (snd r) = [MemeNotFound "meme_gone"; MemeNotFound "meme_gone"] /\
  redis (snd r) = redis world1 /\
  scheduled (snd r) = scheduled world1 ++ [updateJob "meme_gone" 3600].
Proof. vm_compute. repeat split; reflexivity. Qed.

Example pass_load_fails :
  let r := updateMemeValuation sampleId (withFaults redisDown world1) in
  fst r = Ok tt /\ console (snd r) = [RedisError; RedisError] /\
  redis (snd r) = redis world1 /\
  scheduled (snd r) = scheduled world1 ++ [updateJob sampleId 3600].
Proof. vm_compute. repeat split; reflexivity. Qed.

Example pass_commit_fails :
  let r := updateMemeValuation sampleId (withFaults commitFails world1) in
  fst r = Ok tt /\ console (snd r) = [RedisError] /\
  redis (snd r) = redis world1 /\
  scheduled (snd r) = scheduled world1 ++ [updateJob sampleId 3600].
Proof. vm_compute. repeat split; reflexivity. Qed.

Example pass_sink_fails :
  let r := updateMemeValuation sampleId (withFaults sinkDown world1) in
  fst r = Ok tt /\ console (snd r) = [HistoryError] /\
  scheduled (snd r) = scheduled world1 ++ [updateJob sampleId 3600].
Proof. vm_compute. repeat split; reflexivity. Qed.

(** When the scheduler itself rejects the job, in the pass and again in
    the handler, the handler's error reaches the caller and nothing is
    scheduled. *)
Example pass_scheduler_fails :
  let r := updateMemeValuation sampleId (withFaults schedulerDown world1) in
  fst r = Throw SchedulerError /\ scheduled (snd r) = scheduled world1.
Proof. vm_compute. split; reflexivity. Qed.

(** C9: the asset returned by [createMeme] has engagement score 10; in a
    store whose scores are all at least 10, a valuation carries a score of
    at least 10, be it computed from the post or carried over, and both
    [createMeme] and a recompute pass lead to a store whose scores are all
    at least 10. *)
Theorem engagementScore_floor a id w :
  stored_all score_floored w ->
  (forall m w', createMeme a w = (Ok m, w') -> engagementScore m = 10) /\
  (forall v w', calculateMemeValue id w = (Ok v, w') -> 10 <= newEngagementScore v) /\
  (forall m v, 10 <= newEngagementScore v ->
               10 <= engagementScore (commitValuation m v)) /\
  stored_all score_floored (snd (createMeme a w)) /\
  stored_all score_floored (snd (updateMemeValuation id w)).
Proof.
  intros Hw. repeat split.
  - intros m w' Hc. now destruct (createMeme_ok a w m w' Hc) as (-> & _).
  - intros v w' Hc. eapply calculateMemeValue_score_floor; [exact Hc |].
    intros m Hm. exact (Hw id m Hm).
  - intros m v Hv. exact Hv.
  - apply createMeme_stored_all; [| | exact Hw].
    + intros. unfold score_floored. cbn. lra.
    + intros m Hm. exact Hm.
  - apply updateMemeValuation_stored_all; [| exact Hw].
    intros m v w1 Hm Hc. unfold score_floored. cbn.
    eapply calculateMemeValue_score_floor; [exact Hc |].
    intros m' Hm'. exact (Hw id m' Hm').
Qed.

Lemma engagementScore_floor_witness :
  stored_all score_floored world1 /\
  stored_all score_floored (snd (updateMemeValuation sampleId world1)).
Proof.
  assert (H0 : stored_all score_floored world0) by apply map_Forall_empty.
  assert (H1 : stored_all score_floored world1)
    by apply (engagementScore_floor (sampleArgs 10) sampleId world0 H0).
  split; [exact H1 |].
  apply (engagementScore_floor (sampleArgs 10) sampleId world1 H1).
Defined.

(** C10: [calculateMemeValue] writes nothing: the store (records, indexes,
    portfolios), the scheduler queue and the market history are the same
    after it as before; the valuation it returns reaches the store through
    [updateMemeValuation], which, when Redis answers and the asset exists,
    replaces the record of the asset by the committed one and leaves the
    rest of the store alone. *)
Theorem calculateMemeValue_read_only id w :
  (redis (snd (calculateMemeValue id w)) = redis w /\
   scheduled (snd (calculateMemeValue id w)) = scheduled w /\
   marketHistory (snd (calculateMemeValue id w)) = marketHistory w) /\
  (forall m,
     redis_faults (faults w) = [] ->
     memes (redis w) !! id = Some m ->
     exists v,
       fst (calculateMemeValue id w) = Ok v /\
       redis (snd (updateMemeValuation id w)) =
         {| memes := <[id := commitValuation m v]> (memes (redis w));
            meme_index := meme_index (redis w);
            category := category (redis w);
            portfolio := portfolio (redis w) |}).
Proof.
  split.
  - destruct (calculateMemeValue_frame id w) as (Hr & Hj & Hh & _). auto.
  - intros m Hf Hm. exact (updateMemeValuation_commits id w m Hf Hm).
Qed.

Lemma calculateMemeValue_read_only_witness :
  redis (snd (calculateMemeValue sampleId world1)) = redis world1 /\
  exists v,
    fst (calculateMemeValue sampleId world1) = Ok v /\
    memes (redis (snd (updateMemeValuation sampleId world1))) !! sampleId =
      Some (commitValuation
              (grantFounder (newMemeOf (sampleArgs 10) alice sampleId 1700000000000)) v).
Proof.
  destruct (calculateMemeValue_read_only sampleId world1) as ((Hr & _) & Hc).
  split; [exact Hr |].
  destruct (Hc (grantFounder (newMemeOf (sampleArgs 10) alice sampleId 1700000000000)))
    as (v & Hv & Hu).
  - reflexivity.
  - vm_compute. reflexivity.
  - exists v. split; [exact Hv |]. rewrite Hu. cbn. apply lookup_insert_eq.
Defined.

(** ** Ranking *)

(** [getTrendingMemes] never fails towards its caller. *)
Lemma getTrendingMemes_returns limit cat w :
  exists l, fst (getTrendingMemes limit cat w) = Ok l.
Proof.
  destruct (getTrendingMemes_shape limit cat w) as [H | [loaded H]];
    rewrite H; eauto.
Qed.

(** With a negative limit and no fault, the ranking loses its last
    [-limit] entries. *)
Lemma getTrendingMemes_negative limit cat w :
  redis_faults (faults w) = [] ->
  (limit < 0)%Z ->
  exists l,
    fst (getTrendingMemes (Some limit) cat w) = Ok l /\
    Z.of_nat (length l) =
      Z.max (Z.of_nat (length (loadedMemes (candidateIds cat (redis w)) (redis w)))
             + limit) 0.
Proof.
  intros Hf Hl. rewrite (getTrendingMemes_fault_free _ _ _ Hf).
  eexists. split; [reflexivity |]. cbn [default].
  rewrite slice_to_length_neg by exact Hl.
  now rewrite (Permutation_length (js_sort_perm _ _)).
Qed.

(** C7, at a negative limit: with three assets stored and limit -1 the
    result is not empty; it holds the two best-ranked assets. *)
Theorem getTrendingMemes_negative_limit :
  fst (getTrendingMemes (Some (-1)%Z) None rankingWorld) = Ok [memeUp; memeFlat].
Proof. vm_compute. reflexivity. Qed.

(** C8: when Redis answers, the assets returned are the first entries of a
    ranking that holds exactly the stored records of the indexed ids (an id
    without a record contributes nothing); the ranking is in descending
    order of [getChangePercent], provided that metric is [NaN] for none of
    the records, which is the case in every store [createMeme] and the
    recompute passes produce.  The metric is 0 for an asset with fewer than
    two samples and [(current - previous) / previous] over the last two
    samples otherwise: a rational for a previous price other than 0, and
    for a previous price of 0 an infinity with the sign of the current
    price, or [NaN] when that is 0 too. *)
Theorem getTrendingMemes_ranking limit cat w :
  redis_faults (faults w) = [] ->
  exists ranked,
    fst (getTrendingMemes limit cat w) = Ok (slice_to ranked (default 10%Z limit)) /\
    Permutation ranked (loadedMemes (candidateIds cat (redis w)) (redis w)) /\
    (forall m, m ∈ ranked <->
               exists id, id ∈ candidateIds cat (redis w) /\
                          memes (redis w) !! id = Some m) /\
    (Forall (fun m => getChangePercent m <> NotANumber) ranked ->
     StronglySorted (fun a b => js_le (getChangePercent b) (getChangePercent a))
                    ranked) /\
    (forall m, (length (priceHistory m) < 2)%nat -> getChangePercent m = Finite 0) /\
    (forall m h previous current,
       priceHistory m = h ++ [previous; current] ->
       (~ price previous == 0 ->
        getChangePercent m =
          Finite ((price current - price previous) / price previous)) /\
       (price previous == 0 ->
        (0 < price current -> getChangePercent m = PosInfinity) /\
        (price current < 0 -> getChangePercent m = NegInfinity) /\
        (price current == 0 -> getChangePercent m = NotANumber))).
Proof.
  intros Hf.
  exists (js_sort trendingOrder
            (loadedMemes (candidateIds cat (redis w)) (redis w))).
  split; [now apply getTrendingMemes_fault_free |].
  split; [apply js_sort_perm |].
  split; [| split; [| split; [apply getChangePercent_short |]]].
  - intros m. rewrite (js_sort_perm trendingOrder _).
    unfold loadedMemes. rewrite list_elem_of_omap. reflexivity.
  - intros Hdef. apply js_sort_trending_sorted.
    now rewrite <- (js_sort_perm trendingOrder _).
  - intros m h previous current Hh.
    rewrite (getChangePercent_last_two m h previous current Hh). split.
    + apply js_div_nonzero.
    + intros Hz.
      destruct (js_div_zero (price current - price previous) (price previous) Hz)
        as (Hpos & Hneg & Hnan).
      repeat split; intros Hc; [apply Hpos | apply Hneg | apply Hnan]; lra.
Qed.

Lemma getTrendingMemes_ranking_witness :
  exists ranked,
    fst (getTrendingMemes None None zeroPriceWorld) = Ok (slice_to ranked 10) /\
    Permutation ranked [memeUp; memeZero] /\
    StronglySorted (fun a b => js_le (getChangePercent b) (getChangePercent a)) ranked /\
    getChangePercent memeZero = PosInfinity.
Proof.
  destruct (getTrendingMemes_ranking None None zeroPriceWorld)
    as (ranked & Hr & Hp & _ & Hs & _ & Hm).
  - reflexivity.
  - exists ranked. split; [exact Hr |]. split; [exact Hp |]. split.
    + apply Hs. rewrite Hp.
      replace (loadedMemes (candidateIds None (redis zeroPriceWorld))
                 (redis zeroPriceWorld))
        with [memeUp; memeZero] by (vm_compute; reflexivity).
      repeat constructor; vm_compute; discriminate.
    + destruct (Hm memeZero []
                  {| timestamp := 1700000000000; price := 0 |}
                  {| timestamp := 1700000000000; price := 0.1 |} eq_refl)
        as (_ & Hz).
      destruct Hz as (Hpos & _); [reflexivity |].
      apply Hpos. reflexivity.
Defined.

(** The ranking of the sample store: the asset without a second sample
    stands between the one that rose and the one that fell, and the index
    entry without a record is passed over. *)
Example ranking_sample :
  fst (getTrendingMemes None None rankingWorld) = Ok [memeUp; memeFlat; memeDown] /\
  js_eq (getChangePercent memeUp) (Finite 0.1) /\
  js_eq (getChangePercent memeFlat) (Finite 0) /\
  js_eq (getChangePercent memeDown) (Finite (-0.1)).
Proof. split; [vm_compute; reflexivity |]. repeat split. Qed.

(** An asset created at price 0 has the metric [Infinity] after its first
    pass and is ranked first. *)
Example ranking_zero_price :
  fst (getTrendingMemes None None zeroPriceWorld) = Ok [memeZero; memeUp] /\
  getChangePercent memeZero = PosInfinity.
Proof. split; vm_compute; reflexivity. Qed.

(** The metric is [NaN] for no record of a store that [createMeme] and the
    recompute passes have produced: a new asset has one sample, and the
    last sample of a committed asset has a price of at least 0.1. *)
Lemma ranking_metric_defined a ids w :
  stored_all (fun m => getChangePercent m <> NotANumber) w ->
  stored_all (fun m => getChangePercent m <> NotANumber) (snd (createMeme a w)) /\
  stored_all (fun m => getChangePercent m <> NotANumber) (recompute_all ids w).
Proof.
  intros Hw. split.
  - apply createMeme_stored_all; [| | exact Hw].
    + intros. discriminate.
    + intros m Hm. exact Hm.
  - revert w Hw. unfold recompute_all.
    induction ids as [| id ids IH]; intros w Hw; cbn [foldl]; [exact Hw |].
    apply IH. apply updateMemeValuation_stored_all; [| exact Hw].
    intros m v w2 _ Hc.
    apply (getChangePercent_defined _ (sampleOf v)).
    + cbn [commitValuation priceHistory]. apply pushCapped_last.
    + destruct (calculateMemeValue_bounded _ _ _ _ Hc) as (_ & _ & Hp).
      cbn [sampleOf price]. lra.
Qed.

(** * Further properties of the engine *)

(** ** Issuance: registration, frame and failure *)

Lemma occurrences_cons c c0 cats :
  occurrences c (c0 :: cats) =
    if decide (c0 = c) then S (occurrences c cats) else occurrences c cats.
Proof.
  unfold occurrences. rewrite filter_cons.
  destruct (decide (c0 = c)); reflexivity.
Qed.

Lemma occurrences_pos c cats : c ∈ cats <-> (0 < occurrences c cats)%nat.
Proof.
  induction cats as [| c0 cats IH].
  - cbn. split; [intros H; inversion H | lia].
  - rewrite occurrences_cons, elem_of_cons.
    destruct (decide (c0 = c)) as [-> | Hne].
    + split; [lia | auto].
    + rewrite <- IH. split; [intros [-> | H]; [congruence | exact H] | auto].
Qed.

Lemma occurrences_NoDup c cats : NoDup cats -> c ∈ cats -> occurrences c cats = 1%nat.
Proof.
  induction 1 as [| c0 cats Hnotin Hnd IH]; intros Hin.
  - inversion Hin.
  - rewrite occurrences_cons. destruct (decide (c0 = c)) as [-> | Hne].
    + destruct (occurrences c cats) eqn:E; [reflexivity |].
      exfalso. apply Hnotin, occurrences_pos. lia.
    + apply IH. apply elem_of_cons in Hin as [-> | Hin]; [congruence | exact Hin].
Qed.

(** What one step of the category loop writes. *)
Lemma addToCategory_ok id c w w' :
  addToCategory id c w = (Ok tt, w') ->
  category (redis w') = <[c := default [] (category (redis w) !! c) ++ [id]]> (category (redis w)).
Proof.
  unfold addToCategory. unfold_m. run_m; intros; simplify_eq/=. reflexivity.
Qed.

Lemma category_loop_ok id cats : forall w w',
  for_of cats (addToCategory id) w = (Ok tt, w') ->
  forall c,
    category (redis w') !! c =
      match occurrences c cats with
      | O => category (redis w) !! c
      | k => Some (default [] (category (redis w) !! c) ++ replicate k id)
      end.
Proof.
  induction cats as [| c0 cats IH]; intros w w' Hrun c.
  - cbn in Hrun. unfold ret in Hrun. simplify_eq. reflexivity.
  - cbn [for_of] in Hrun. unfold bind in Hrun.
    destruct (addToCategory id c0 w) as [[[] | e] w1] eqn:Hstep; [| discriminate].
    apply addToCategory_ok in Hstep.
    rewrite (IH _ _ Hrun c), occurrences_cons, Hstep.
    destruct (decide (c0 = c)) as [-> | Hne].
    + rewrite lookup_insert_eq. cbn [default].
      destruct (occurrences c cats) as [| k]; [reflexivity |].
      cbn. rewrite <- app_assoc. reflexivity.
    + rewrite lookup_insert_ne by exact Hne. reflexivity.
Qed.

Lemma category_loop_console id cats : forall w,
  console (snd (for_of cats (addToCategory id) w)) = console w.
Proof.
  induction cats as [| c cats IH]; intros w; [reflexivity |].
  cbn [for_of]. unfold bind.
  destruct (addToCategory id c w) as [[[] | e] w1] eqn:Hc.
  - rewrite IH. revert Hc. unfold addToCategory. unfold_m.
    run_m; intros; simplify_eq/=; reflexivity.
  - revert Hc. unfold addToCategory. unfold_m.
    run_m; intros; simplify_eq/=; reflexivity.
Qed.

(** Everything a successful [createMeme] leaves behind. *)
Lemma createMeme_effect a w m w' :
  createMeme a w = (Ok m, w') ->
  let u := currentUser (env w) in
  let id := makeMemeId (clock (env w)) (random (env w)) in
  meme_id m = id /\
  memes (redis w') = <[id := m]> (memes (redis w)) /\
  meme_index (redis w') = Some (default [] (meme_index (redis w)) ++ [id]) /\
  (forall c,
     category (redis w') !! c =
       match occurrences c (arg_categories a) with
       | O => category (redis w) !! c
       | k => Some (default [] (category (redis w) !! c) ++ replicate k id)
       end) /\
  portfolio (redis w') =
    <[user_id u := <[id := founderHolding]> (default ∅ (portfolio (redis w) !! user_id u))]>
      (portfolio (redis w)) /\
  scheduled w' = scheduled w ++ [updateJob id updateDelay] /\
  marketHistory w' = marketHistory w /\ console w' = console w /\ env w' = env w.
Proof.
  unfold createMeme. unfold_m.
  run_m; intros; simplify_eq/=.
  repeat match goal with x : () |- _ => destruct x end.
  match goal with
  | H : for_of ?cats (addToCategory ?i) ?w1 = (_, _) |- _ =>
      pose proof (category_loop_ok _ _ _ _ H) as Hcat;
      pose proof (category_loop i cats w1) as Hl;
      pose proof (category_loop_console i cats w1) as Hlog;
      rewrite H in Hl, Hlog; cbn [snd] in Hl, Hlog
  end.
  destruct Hl as (Hm & Hi & Hp & Hs & Hh & He & _). cbn in *.
  repeat split.
  - rewrite Hm. apply insert_insert_eq.
  - congruence.
  - exact Hcat.
  - congruence.
  - congruence.
  - congruence.
  - congruence.
  - congruence.
Qed.

(** X1: a successful [createMeme] appends the new id to the global index
    and to the index of each of its categories, after the entries that were
    there; the index of any other category is left as it was. *)
Theorem createMeme_registers a w m w' :
  createMeme a w = (Ok m, w') ->
  meme_index (redis w') =
    Some (default [] (meme_index (redis w)) ++ [meme_id m]) /\
  (forall c, c ∈ arg_categories a ->
     exists k, (0 < k)%nat /\
       category (redis w') !! c =
         Some (default [] (category (redis w) !! c) ++ replicate k (meme_id m))) /\
  (forall c, NoDup (arg_categories a) -> c ∈ arg_categories a ->
     category (redis w') !! c =
       Some (default [] (category (redis w) !! c) ++ [meme_id m])) /\
  (forall c, c ∉ arg_categories a ->
     category (redis w') !! c = category (redis w) !! c).
Proof.
  intros Hc.
  destruct (createMeme_effect a w m w' Hc) as (Hid & _ & Hi & Hcat & _).
  rewrite Hid. split; [exact Hi |]. repeat split.
  - intros c Hin. rewrite Hcat.
    apply occurrences_pos in Hin.
    destruct (occurrences c (arg_categories a)) as [| k] eqn:E; [lia |].
    exists (S k). split; [lia | reflexivity].
  - intros c Hnd Hin. rewrite Hcat, (occurrences_NoDup c _ Hnd Hin). reflexivity.
  - intros c Hnotin. rewrite Hcat.
    destruct (occurrences c (arg_categories a)) as [| k] eqn:E; [reflexivity |].
    exfalso. apply Hnotin, occurrences_pos. lia.
Qed.

Lemma createMeme_registers_witness :
  meme_index (redis world1) = Some [sampleId] /\
  category (redis world1) !! "dank" = Some [sampleId] /\
  category (redis world1) !! "sports" = None.
Proof.
  destruct (createMeme_registers (sampleArgs 10) world0
              (grantFounder (newMemeOf (sampleArgs 10) alice sampleId 1700000000000))
              world1) as (Hi & _ & Hin & Hout).
  - vm_compute. reflexivity.
  - split; [exact Hi |]. split.
    + apply (Hin "dank"); apply (bool_decide_unpack _); vm_compute; exact I.
    + apply (Hout "sports"). apply (bool_decide_unpack _). vm_compute. exact I.
Defined.

(** X2: a successful [createMeme] schedules one recompute pass for the new
    id in 3600 seconds and writes nothing but the new record, the creator's
    holding of the new asset and the indexes: the records of other assets,
    the portfolios of other users, the creator's other holdings and the
    market history are as before. *)
Theorem createMeme_frame a w m w' :
  createMeme a w = (Ok m, w') ->
  (forall id', id' ≠ meme_id m ->
     memes (redis w') !! id' = memes (redis w) !! id') /\
  (forall u', u' ≠ creatorId m ->
     portfolio (redis w') !! u' = portfolio (redis w) !! u') /\
  (forall id', id' ≠ meme_id m ->
     portfolio (redis w') !! creatorId m ≫= (.!! id') =
     portfolio (redis w) !! creatorId m ≫= (.!! id')) /\
  scheduled w' =
    scheduled w ++
    [ {| delay := 3600; jobName := "updateMemeValuation"; payload := meme_id m |} ] /\
  marketHistory w' = marketHistory w.
Proof.
  intros Hc.
  destruct (createMeme_effect a w m w' Hc) as (Hid & Hm & _ & _ & Hp & Hs & Hh & _).
  destruct (createMeme_ok a w m w' Hc) as (Hmeme & _).
  assert (Hu : creatorId m = user_id (currentUser (env w))) by (rewrite Hmeme; reflexivity).
  rewrite Hid, Hu. repeat split.
  - intros id' Hne. rewrite Hm. now rewrite lookup_insert_ne.
  - intros u' Hne. rewrite Hp. now rewrite lookup_insert_ne.
  - intros id' Hne. rewrite Hp, lookup_insert_eq. cbn.
    rewrite lookup_insert_ne by congruence.
    destruct (portfolio (redis w) !! user_id (currentUser (env w))); [reflexivity |].
    cbn. now rewrite lookup_empty.
  - exact Hs.
  - exact Hh.
Qed.

Lemma createMeme_frame_witness :
  memes (redis world1) !! "meme_up" = None /\
  scheduled world1 = [updateJob sampleId 3600].
Proof.
  destruct (createMeme_frame (sampleArgs 10) world0
              (grantFounder (newMemeOf (sampleArgs 10) alice sampleId 1700000000000))
              world1) as (Hm & _ & _ & Hs & _).
  - vm_compute. reflexivity.
  - split; [| exact Hs]. rewrite (Hm "meme_up"); [reflexivity | discriminate].
Defined.

(** X3: [createMeme] does not check whether its id is taken.  When the
    store already holds a record under the id it generates, that record is
    replaced by the new asset, whose history starts again at one sample,
    and the id is listed in the global index once more. *)
Theorem createMeme_overwrites a w old m w' :
  let id := makeMemeId (clock (env w)) (random (env w)) in
  memes (redis w) !! id = Some old ->
  id ∈ default [] (meme_index (redis w)) ->
  createMeme a w = (Ok m, w') ->
  memes (redis w') !! id = Some m /\
  priceHistory m =
    [ {| timestamp := clock (env w); price := arg_initialSharePrice a |} ] /\
  (portfolio (redis w') !! creatorId m ≫= (.!! id)) =
    Some {| shares := 100; averageBuyPrice := 0 |} /\
  exists l1 l2, meme_index (redis w') = Some (l1 ++ id :: l2 ++ [id]).
Proof.
  intros id _ Hin Hc.
  destruct (createMeme_effect a w m w' Hc) as (_ & Hm & Hi & _ & Hp & _).
  destruct (createMeme_ok a w m w' Hc) as (Hmeme & _).
  fold id in Hm, Hi, Hp, Hmeme. repeat split.
  - rewrite Hm. apply lookup_insert_eq.
  - rewrite Hmeme. reflexivity.
  - rewrite Hmeme. cbn [creatorId grantFounder newMemeOf].
    rewrite Hp, lookup_insert_eq. cbn. apply lookup_insert_eq.
  - apply list_elem_of_split in Hin as (l1 & l2 & Hsplit).
    exists l1, l2. rewrite Hi, Hsplit, <- app_assoc. reflexivity.
Qed.

Lemma createMeme_overwrites_witness :
  exists m,
    fst (createMeme (sampleArgs 20) world1) = Ok m /\
    memes (redis (snd (createMeme (sampleArgs 20) world1))) !! sampleId = Some m /\
    meme_index (redis (snd (createMeme (sampleArgs 20) world1))) =
      Some [sampleId; sampleId].
Proof.
  exists (grantFounder (newMemeOf (sampleArgs 20) alice sampleId 1700000000000)).
  destruct (createMeme_overwrites (sampleArgs 20) world1
              (grantFounder (newMemeOf (sampleArgs 10) alice sampleId 1700000000000))
              (grantFounder (newMemeOf (sampleArgs 20) alice sampleId 1700000000000))
              (snd (createMeme (sampleArgs 20) world1)))
    as (Hm & _ & _ & _).
  - vm_compute. reflexivity.
  - apply (bool_decide_unpack _). vm_compute. exact I.
  - vm_compute. reflexivity.
  - split; [vm_compute; reflexivity |]. split; [exact Hm | vm_compute; reflexivity].
Defined.

(** X4: [createMeme] is not transactional.  When Redis stores the new
    record and then fails on the next command, the call throws, and the
    record stays in the store with all 1000 shares available: it is in no
    index, its creator holds nothing, and no recompute pass is scheduled. *)
Theorem createMeme_partial_write a w rest :
  reddit_faults (faults w) = [] ->
  redis_faults (faults w) = false :: true :: rest ->
  let id := makeMemeId (clock (env w)) (random (env w)) in
  let w' := snd (createMeme a w) in
  fst (createMeme a w) = Throw RedisError /\
  memes (redis w') =
    <[id := newMemeOf a (currentUser (env w)) id (clock (env w))]> (memes (redis w)) /\
  (exists m, memes (redis w') !! id = Some m /\ availableShares m = 1000) /\
  meme_index (redis w') = meme_index (redis w) /\
  category (redis w') = category (redis w) /\
  portfolio (redis w') = portfolio (redis w) /\
  scheduled w' = scheduled w /\
  console w' = console w ++ [RedisError].
Proof.
  intros Hd Hr id w'. subst w' id.
  unfold createMeme. unfold_m. rewrite Hd. cbn. rewrite Hr. cbn.
  repeat split. eexists. split; [apply lookup_insert_eq | reflexivity].
Qed.

Lemma createMeme_partial_write_witness :
  let w' := snd (createMeme (sampleArgs 10) (withFaults redisFailsSecond world0)) in
  fst (createMeme (sampleArgs 10) (withFaults redisFailsSecond world0)) =
    Throw RedisError /\
  meme_index (redis w') = None /\ scheduled w' = [].
Proof.
  destruct (createMeme_partial_write (sampleArgs 10)
              (withFaults redisFailsSecond world0) [])
    as (Hf & _ & _ & Hi & _ & _ & Hs & _); [reflexivity | reflexivity |].
  split; [exact Hf |]. split; [exact Hi | exact Hs].
Defined.

(** X5: when everything is written and the scheduler then rejects the
    first job, [createMeme] throws although the asset is issued: the record
    with the founder's grant is stored and indexed, and nothing is
    scheduled, so no recompute pass will ever run for it. *)
Theorem createMeme_unscheduled a w rest :
  reddit_faults (faults w) = [] ->
  redis_faults (faults w) = [] ->
  scheduler_faults (faults w) = true :: rest ->
  let u := currentUser (env w) in
  let id := makeMemeId (clock (env w)) (random (env w)) in
  let w' := snd (createMeme a w) in
  fst (createMeme a w) = Throw SchedulerError /\
  memes (redis w') !! id = Some (grantFounder (newMemeOf a u id (clock (env w)))) /\
  meme_index (redis w') = Some (default [] (meme_index (redis w)) ++ [id]) /\
  (portfolio (redis w') !! user_id u ≫= (.!! id)) = Some founderHolding /\
  scheduled w' = scheduled w.
Proof.
  intros Hd Hr Hs u id w'. subst w' u id.
  unfold createMeme. unfold_m. rewrite Hd. cbn. rewrite Hr. cbn.
  match goal with
  | |- context [for_of ?cats (addToCategory ?i) ?w0] =>
      destruct (category_loop_total i cats w0 eq_refl) as [Hok Hf];
      pose proof (category_loop i cats w0) as Hl;
      destruct (for_of cats (addToCategory i) w0) as [r w1]
  end.
  cbn [fst snd] in *. subst r.
  destruct Hl as (Hm & Hi & Hp & Hj & _ & _ & _ & Hsf & _). cbn in Hm, Hi, Hp, Hj, Hsf.
  rewrite Hf. cbn. rewrite Hsf, Hs. cbn.
  repeat split.
  - apply lookup_insert_eq.
  - exact Hi.
  - rewrite lookup_insert_eq. cbn. apply lookup_insert_eq.
  - exact Hj.
Qed.

Lemma createMeme_unscheduled_witness :
  let w' := snd (createMeme (sampleArgs 10) (withFaults schedulerFailsOnce world0)) in
  fst (createMeme (sampleArgs 10) (withFaults schedulerFailsOnce world0)) =
    Throw SchedulerError /\
  meme_index (redis w') = Some [sampleId] /\ scheduled w' = [].
Proof.
  destruct (createMeme_unscheduled (sampleArgs 10)
              (withFaults schedulerFailsOnce world0) [])
    as (Hf & _ & Hi & _ & Hs); [reflexivity | reflexivity | reflexivity |].
  split; [exact Hf |]. split; [exact Hi | exact Hs].
Defined.

(** ** Valuation: errors and the shape of the price move *)

(** X6: for an id without a stored record, [calculateMemeValue] throws
    [Meme not found] after logging it, and changes nothing else. *)
Theorem calculateMemeValue_not_found id w rest :
  redis_faults (faults w) = false :: rest \/ redis_faults (faults w) = [] ->
  memes (redis w) !! id = None ->
  fst (calculateMemeValue id w) = Throw (MemeNotFound id) /\
  console (snd (calculateMemeValue id w)) = console w ++ [MemeNotFound id] /\
  redis (snd (calculateMemeValue id w)) = redis w /\
  scheduled (snd (calculateMemeValue id w)) = scheduled w.
Proof.
  intros Hf Hm. unfold calculateMemeValue. unfold_m.
  destruct Hf as [Hf | Hf]; rewrite Hf, Hm; cbn; repeat split.
Qed.

Lemma calculateMemeValue_not_found_witness :
  fst (calculateMemeValue "meme_gone" world1) = Throw (MemeNotFound "meme_gone").
Proof.
  apply (calculateMemeValue_not_found "meme_gone" world1 []).
  - right. reflexivity.
  - vm_compute. reflexivity.
Defined.

Lemma clamp_zero x : x == 0 -> Qmax (-0.3) (Qmin 0.3 x) == 0.
Proof.
  intros Hx.
  destruct (Q.min_spec 0.3 x) as [[? H] | [? H]]; [lra |].
  destruct (Q.max_spec (-0.3) (Qmin 0.3 x)) as [[? H'] | [? H']]; lra.
Qed.

Lemma clamp_nonneg x : 0 <= x -> 0 <= Qmax (-0.3) (Qmin 0.3 x).
Proof.
  intros Hx.
  destruct (Q.min_spec 0.3 x) as [[? H] | [? H]];
    destruct (Q.max_spec (-0.3) (Qmin 0.3 x)) as [[? H'] | [? H']]; lra.
Qed.

Lemma clamp_nonpos x : x <= 0 -> Qmax (-0.3) (Qmin 0.3 x) <= 0.
Proof.
  intros Hx.
  destruct (Q.min_spec 0.3 x) as [[? H] | [? H]];
    destruct (Q.max_spec (-0.3) (Qmin 0.3 x)) as [[? H'] | [? H']]; lra.
Qed.

Lemma prevEngagementScore_pos meme :
  0 <= engagementScore meme -> 0 < prevEngagementScore meme.
Proof.
  intros H. unfold prevEngagementScore, or_default.
  destruct (Qeq_bool (engagementScore meme) 0) eqn:E; [reflexivity |].
  apply Qeq_bool_neq in E. lra.
Qed.

(** An unchanged score gives no price move, whatever the age and the
    volume. *)
Lemma calculatePriceChange_same_score now meme :
  calculatePriceChange now meme (prevEngagementScore meme) == 0.
Proof.
  unfold calculatePriceChange. apply clamp_zero.
  unfold rawPriceChange, scoreChangePercent.
  assert (H : prevEngagementScore meme - prevEngagementScore meme == 0) by ring.
  unfold Qdiv. rewrite H. ring.
Qed.

Lemma newPrice_unchanged meme pcp :
  pcp == 0 -> newPrice meme pcp == Qmax 0.1 (currentSharePrice meme).
Proof.
  intros H. unfold newPrice.
  assert (Hp : currentSharePrice meme * (1 + pcp) == currentSharePrice meme)
    by (rewrite H; ring).
  destruct (Q.max_spec 0.1 (currentSharePrice meme * (1 + pcp))) as [[? H1] | [? H1]];
    destruct (Q.max_spec 0.1 (currentSharePrice meme)) as [[? H2] | [? H2]]; lra.
Qed.

(** The score a valuation settles on when no post data is available. *)
Lemma calculateMemeValue_carried id w m v w' :
  memes (redis w) !! id = Some m ->
  truthy (postId m) = None \/
  (exists rest, reddit_faults (faults w) = true :: rest) \/
  (exists pid, truthy (postId m) = Some pid /\ posts (env w) !! pid = None) ->
  calculateMemeValue id w = (Ok v, w') ->
  v = valuate (clock (env w)) id m (or_default (engagementScore m) 10).
Proof.
  intros Hm Hpost. unfold calculateMemeValue, engagementOf. unfold_m.
  destruct (next_fault (redis_faults (faults w))) as [[] l]; cbn; [discriminate |].
  rewrite Hm.
  destruct Hpost as [Hp | [(rest & Hp) | (pid & Hp & Hq)]].
  - rewrite Hp. cbn. intros; simplify_eq/=. reflexivity.
  - destruct (truthy (postId m)); cbn; [rewrite Hp; cbn |]; intros; simplify_eq/=; reflexivity.
  - rewrite Hp. cbn.
    destruct (next_fault (reddit_faults (faults w))) as [[] l']; cbn;
      [| rewrite Hq; cbn]; intros; simplify_eq/=; reflexivity.
Qed.

Lemma valuation_carried_over id w m v w' :
  memes (redis w) !! id = Some m ->
  truthy (postId m) = None \/
  (exists rest, reddit_faults (faults w) = true :: rest) \/
  (exists pid, truthy (postId m) = Some pid /\ posts (env w) !! pid = None) ->
  calculateMemeValue id w = (Ok v, w') ->
  newEngagementScore v = or_default (engagementScore m) 10 /\
  priceChangePercent v == 0 /\
  currentPrice v == Qmax 0.1 (currentSharePrice m).
Proof.
  intros Hm Hpost Hc.
  rewrite (calculateMemeValue_carried id w m v w' Hm Hpost Hc).
  cbn [valuate newEngagementScore priceChangePercent currentPrice].
  pose proof (calculatePriceChange_same_score (clock (env w)) m) as Hz.
  unfold prevEngagementScore in Hz.
  pose proof (newPrice_unchanged m _ Hz) as Hp.
  repeat split; [exact Hz | exact Hp].
Qed.

(** X7: when the asset has no post, or the post cannot be fetched, a
    valuation carries the stored score over ([|| 10]), its percent change
    is 0 and its price is [max(0.1, current price)]: without post data an
    asset is never repriced. *)
Theorem calculateMemeValue_without_post id w m v w' :
  memes (redis w) !! id = Some m ->
  truthy (postId m) = None \/
  (exists rest, reddit_faults (faults w) = true :: rest) \/
  (exists pid, truthy (postId m) = Some pid /\ posts (env w) !! pid = None) ->
  calculateMemeValue id w = (Ok v, w') ->
  newEngagementScore v = or_default (engagementScore m) 10 /\
  priceChangePercent v == 0 /\
  currentPrice v == Qmax 0.1 (currentSharePrice m) /\
  (0.1 <= currentSharePrice m -> currentPrice v == currentSharePrice m).
Proof.
  intros Hm Hpost Hc.
  destruct (valuation_carried_over id w m v w' Hm Hpost Hc)
    as (Hs & Hz & Hp).
  repeat split; [exact Hs | exact Hz | exact Hp |].
  intros Hge. rewrite Hp. apply Q.max_r. exact Hge.
Qed.

Lemma calculateMemeValue_without_post_witness :
  exists v,
    fst (calculateMemeValue sampleId world1) = Ok v /\
    priceChangePercent v == 0 /\ currentPrice v == 10.
Proof.
  eexists. split; [vm_compute; reflexivity |].
  match goal with
  | |- priceChangePercent ?v == 0 /\ _ =>
      destruct (calculateMemeValue_without_post sampleId world1
                  (grantFounder (newMemeOf (sampleArgs 10) alice sampleId 1700000000000))
                  v (snd (calculateMemeValue sampleId world1)))
        as (_ & Hz & _ & Hp)
  end.
  - vm_compute. reflexivity.
  - left. reflexivity.
  - vm_compute. reflexivity.
  - split; [exact Hz |]. apply Hp. vm_compute. discriminate.
Defined.

Lemma rawPriceChange_sign now meme newScore :
  0 <= engagementScore meme ->
  0 <= tradeVolume meme ->
  (prevEngagementScore meme <= newScore -> 0 <= rawPriceChange now meme newScore) /\
  (newScore <= prevEngagementScore meme -> rawPriceChange now meme newScore <= 0).
Proof.
  intros Hs Hv.
  pose proof (prevEngagementScore_pos meme Hs) as Hp.
  destruct (volumeFactor_range meme Hv) as [Hvol _].
  assert (Hvola : 0.1 <= volatilityFactor now meme) by apply Q.le_max_l.
  assert (Hf : 0 <= volatilityFactor now meme * volumeFactor meme).
  { apply Qmult_le_0_compat; lra. }
  unfold rawPriceChange. split; intros Hle.
  - assert (Hsc : 0 <= scoreChangePercent meme newScore).
    { unfold scoreChangePercent. apply Qle_shift_div_l; [exact Hp | lra]. }
    rewrite <- Qmult_assoc. apply Qmult_le_0_compat; assumption.
  - assert (Hsc : 0 <= - scoreChangePercent meme newScore).
    { unfold scoreChangePercent.
      assert (E : - ((newScore - prevEngagementScore meme) / prevEngagementScore meme)
                  == (prevEngagementScore meme - newScore) / prevEngagementScore meme)
        by (unfold Qdiv; ring).
      rewrite E. apply Qle_shift_div_l; [exact Hp | lra]. }
    rewrite <- Qmult_assoc.
    pose proof (Qmult_le_0_compat _ _ Hsc Hf) as H.
    assert (E : - scoreChangePercent meme newScore *
                (volatilityFactor now meme * volumeFactor meme)
                == - (scoreChangePercent meme newScore *
                      (volatilityFactor now meme * volumeFactor meme))) by ring.
    rewrite E in H. lra.
Qed.

(** X8: for a stored score that is not negative and a trade volume that is
    not negative, the price moves with the score: a score that did not fall
    gives a percent change of at least 0 and, for a price of at least 0.1,
    a new price that is not lower; a score that did not rise gives a percent
    change of at most 0 and a new price of at most [max(0.1, price)],
    whatever the price. *)
Theorem price_follows_score now meme newScore :
  0 <= engagementScore meme ->
  0 <= tradeVolume meme ->
  let pcp := calculatePriceChange now meme newScore in
  (prevEngagementScore meme <= newScore ->
     0 <= pcp /\
     (0.1 <= currentSharePrice meme -> currentSharePrice meme <= newPrice meme pcp)) /\
  (newScore <= prevEngagementScore meme ->
     pcp <= 0 /\
     newPrice meme pcp <= Qmax 0.1 (currentSharePrice meme)).
Proof.
  intros Hs Hv pcp. subst pcp.
  destruct (rawPriceChange_sign now meme newScore Hs Hv) as [Hup Hdown].
  destruct (calculatePriceChange_bounds now meme newScore) as [Hlo _].
  unfold calculatePriceChange in *. unfold newPrice. split; intros Hle.
  - pose proof (clamp_nonneg _ (Hup Hle)) as Hc. split; [exact Hc |].
    intros Hp.
    set (c := Qmax (-0.3) (Qmin 0.3 (rawPriceChange now meme newScore))) in *.
    assert (Hm : 0 <= currentSharePrice meme * c)
      by (apply Qmult_le_0_compat; lra).
    assert (E : currentSharePrice meme * (1 + c)
                == currentSharePrice meme + currentSharePrice meme * c) by ring.
    eapply Qle_trans; [| apply Q.le_max_r]. lra.
  - pose proof (clamp_nonpos _ (Hdown Hle)) as Hc. split; [exact Hc |].
    set (c := Qmax (-0.3) (Qmin 0.3 (rawPriceChange now meme newScore))) in *.
    destruct (Qlt_le_dec (currentSharePrice meme) 0) as [Hneg | Hp].
    + assert (Hm : 0 <= (- currentSharePrice meme) * (1 + c))
        by (apply Qmult_le_0_compat; lra).
      assert (E : (- currentSharePrice meme) * (1 + c)
                  == - (currentSharePrice meme * (1 + c))) by ring.
      apply Q.max_lub; [apply Q.le_max_l |].
      eapply Qle_trans; [| apply Q.le_max_l]. lra.
    + assert (Hm : 0 <= currentSharePrice meme * (- c))
        by (apply Qmult_le_0_compat; lra).
      assert (E : currentSharePrice meme * (1 + c)
                  == currentSharePrice meme - currentSharePrice meme * (- c)) by ring.
      apply Q.max_le_compat_l. lra.
Qed.

Lemma price_follows_score_witness :
  0 <= calculatePriceChange 1700086400000 (sampleMeme 10 10) 20 /\
  calculatePriceChange 1700086400000 (sampleMeme 10 10) 5 <= 0 /\
  newPrice (sampleMeme 10 (-5))
           (calculatePriceChange 1700086400000 (sampleMeme 10 (-5)) 5) <= 0.1.
Proof.
  destruct (price_follows_score 1700086400000 (sampleMeme 10 10) 20) as [Hup _];
    [vm_compute; discriminate | vm_compute; discriminate |].
  destruct (price_follows_score 1700086400000 (sampleMeme 10 10) 5) as [_ Hdown];
    [vm_compute; discriminate | vm_compute; discriminate |].
  destruct (price_follows_score 1700086400000 (sampleMeme 10 (-5)) 5) as [_ Hneg];
    [vm_compute; discriminate | vm_compute; discriminate |].
  destruct Hup as [Hup _]; [vm_compute; discriminate |].
  destruct Hdown as [Hdown _]; [vm_compute; discriminate |].
  destruct Hneg as [_ Hneg]; [vm_compute; discriminate |].
  split; [exact Hup |]. split; [exact Hdown | exact Hneg].
Defined.

Lemma newPrice_band meme pcp :
  -0.3 <= pcp -> pcp <= 0.3 ->
  0 <= currentSharePrice meme ->
  0.7 * currentSharePrice meme <= newPrice meme pcp /\
  newPrice meme pcp <= Qmax 0.1 (1.3 * currentSharePrice meme).
Proof.
  intros Hlo Hhi Hp. unfold newPrice.
  assert (H1 : 0 <= currentSharePrice meme * (pcp + 0.3))
    by (apply Qmult_le_0_compat; lra).
  assert (H2 : 0 <= currentSharePrice meme * (0.3 - pcp))
    by (apply Qmult_le_0_compat; lra).
  assert (E1 : currentSharePrice meme * (pcp + 0.3)
               == currentSharePrice meme * (1 + pcp) - 0.7 * currentSharePrice meme)
    by ring.
  assert (E2 : currentSharePrice meme * (0.3 - pcp)
               == 1.3 * currentSharePrice meme - currentSharePrice meme * (1 + pcp))
    by ring.
  split.
  - eapply Qle_trans; [| apply Q.le_max_r]. lra.
  - apply Q.max_le_compat_l. lra.
Qed.

(** X9: a valuation returned by [calculateMemeValue] describes the stored
    asset: it names the requested id, its previous price is the stored
    price, its market cap is [totalShares] times the new price, and for a
    stored price that is not negative the new price is at least 70% of it
    and at most [max(0.1, 130% of it)]. *)
Theorem calculateMemeValue_valuation id w v w' :
  calculateMemeValue id w = (Ok v, w') ->
  exists m,
    memes (redis w) !! id = Some m /\
    memeId v = id /\
    previousPrice v = currentSharePrice m /\
    marketCap v = totalShares m * currentPrice v /\
    valuationTimestamp v = clock (env w) /\
    (0 <= previousPrice v ->
     0.7 * previousPrice v <= currentPrice v /\
     currentPrice v <= Qmax 0.1 (1.3 * previousPrice v)).
Proof.
  intros Hc.
  destruct (calculateMemeValue_ok _ _ _ _ Hc) as (m & e & Hm & -> & _).
  exists m. cbn [valuate memeId previousPrice marketCap valuationTimestamp currentPrice].
  repeat (split; [first [assumption | reflexivity] |]).
  intros Hp. destruct (calculatePriceChange_bounds (clock (env w)) m e) as [Hlo Hhi].
  apply (newPrice_band m _ Hlo Hhi Hp).
Qed.

Lemma calculateMemeValue_valuation_witness :
  exists v m,
    fst (calculateMemeValue sampleId world1) = Ok v /\
    memes (redis world1) !! sampleId = Some m /\
    marketCap v = totalShares m * currentPrice v.
Proof.
  destruct (calculateMemeValue_valuation sampleId world1
              (valuate 1700000000000 sampleId
                 (grantFounder (newMemeOf (sampleArgs 10) alice sampleId 1700000000000)) 10)
              (snd (calculateMemeValue sampleId world1)))
    as (m & Hm & _ & _ & Hcap & _).
  - vm_compute. reflexivity.
  - eexists _, m. split; [vm_compute; reflexivity |]. split; [exact Hm | exact Hcap].
Defined.

(** ** The recompute loop: frame, market history, repeated passes *)

(** X10: a recompute pass never creates or deletes a record and never
    touches the record of another asset, the indexes or the portfolios; in
    the record of its own asset it leaves the share counts, the trade
    volume, the identity and the content as they were. *)
Theorem updateMemeValuation_frame id w :
  let w' := snd (updateMemeValuation id w) in
  dom (memes (redis w')) = dom (memes (redis w)) /\
  (forall id', id' ≠ id -> memes (redis w') !! id' = memes (redis w) !! id') /\
  meme_index (redis w') = meme_index (redis w) /\
  category (redis w') = category (redis w) /\
  portfolio (redis w') = portfolio (redis w) /\
  (forall m', memes (redis w') !! id = Some m' ->
     exists m,
       memes (redis w) !! id = Some m /\
       totalShares m' = totalShares m /\
       availableShares m' = availableShares m /\
       tradeVolume m' = tradeVolume m /\
       meme_id m' = meme_id m /\ creatorId m' = creatorId m /\
       createdAt m' = createdAt m /\ categories m' = categories m /\
       initialSharePrice m' = initialSharePrice m /\ postId m' = postId m).
Proof.
  intros w'. subst w'.
  destruct (updateMemeValuation_store id w) as [-> | (m & v & w1 & Hm & Hc & ->)].
  - repeat split; try reflexivity.
    intros m' Hm'. exists m'. repeat split. exact Hm'.
  - cbn [with_meme memes meme_index category portfolio]. repeat split.
    + apply dom_insert_lookup_L. now rewrite Hm.
    + intros id' Hne. now rewrite lookup_insert_ne.
    + intros m' Hm'. rewrite lookup_insert_eq in Hm'. simplify_eq.
      exists m. repeat split. exact Hm.
Qed.

Lemma updateMemeValuation_frame_witness :
  exists m,
    memes (redis (snd (updateMemeValuation sampleId world1))) !! sampleId = Some m /\
    availableShares m = 900 /\ totalShares m = 1000.
Proof.
  eexists. split; [vm_compute; reflexivity |].
  match goal with
  | |- availableShares ?m' = _ /\ _ =>
      destruct (updateMemeValuation_frame sampleId world1) as (_ & _ & _ & _ & _ & H);
      destruct (H m') as (m & Hm & Ht & Ha & _); [vm_compute; reflexivity |]
  end.
  assert (E : m = grantFounder (newMemeOf (sampleArgs 10) alice sampleId 1700000000000)).
  { revert Hm. vm_compute. congruence. }
  rewrite Ha, Ht, E. split; reflexivity.
Defined.

(** X11: a pass adds at most one entry to the market history, and only the
    valuation whose commit it has written to the store before. *)
Theorem updateMemeValuation_history id w :
  let w' := snd (updateMemeValuation id w) in
  marketHistory w' = marketHistory w \/
  exists m v w1,
    memes (redis w) !! id = Some m /\
    calculateMemeValue id w = (Ok v, w1) /\
    memes (redis w') !! id = Some (commitValuation m v) /\
    marketHistory w' = marketHistory w ++ [v].
Proof.
  intros w'. subst w'. unfold updateMemeValuation.
  pose proof (calculateMemeValue_frame id w) as Hfr.
  unfold try_catch at 1. unfold bind at 1.
  destruct (calculateMemeValue id w) as [[v | e] w1] eqn:Hc;
    destruct Hfr as (Hr & _ & Hh & _); cbn [snd] in Hr, Hh.
  - unfold_m. run_m; rewrite ?Hh, ?Hr in *; auto.
    all: right; eexists _, v, w1; rewrite lookup_insert_eq;
      (split; [eassumption | repeat split]).
  - unfold_m. run_m; rewrite ?Hh; auto.
Qed.

(** X12: a failure of the market-history sink does not undo the commit: the
    committed record is in the store, the market history is as before, the
    failure is logged and, with a scheduler that accepts jobs, the next
    pass is scheduled. *)
Theorem updateMemeValuation_sink_failure id w m rest :
  redis_faults (faults w) = [] ->
  history_faults (faults w) = true :: rest ->
  scheduler_faults (faults w) = [] ->
  memes (redis w) !! id = Some m ->
  let w' := snd (updateMemeValuation id w) in
  exists v,
    fst (calculateMemeValue id w) = Ok v /\
    memes (redis w') !! id = Some (commitValuation m v) /\
    marketHistory w' = marketHistory w /\
    last (console w') = Some HistoryError /\
    fst (updateMemeValuation id w) = Ok tt /\
    scheduled w' = scheduled w ++ [updateJob id 3600].
Proof.
  intros Hf Hh Hs Hm w'. subst w'.
  destruct (calculateMemeValue_total id w m Hf Hm) as (v & w1 & Hc & Hf1).
  pose proof (calculateMemeValue_frame id w) as (Hr & Hj & Hmh & _ & Hsf & Hhf).
  rewrite Hc in Hr, Hj, Hmh, Hsf, Hhf. cbn [snd] in *.
  exists v. rewrite Hc. split; [reflexivity |].
  destruct (updateMemeValuation id w) as [r w'] eqn:E. cbn [fst snd].
  revert E. unfold updateMemeValuation. unfold try_catch at 1. unfold bind at 1.
  rewrite Hc. unfold_m. rewrite Hf1, Hr, Hm. cbn.
  rewrite Hhf, Hh. cbn. rewrite Hsf, Hs. cbn.
  intros E. simplify_eq/=. repeat split.
  - apply lookup_insert_eq.
  - exact Hmh.
  - apply last_snoc.
  - now rewrite Hj.
Qed.

Lemma updateMemeValuation_sink_failure_witness :
  marketHistory (snd (updateMemeValuation sampleId (withFaults sinkDown world1))) = [] /\
  fst (updateMemeValuation sampleId (withFaults sinkDown world1)) = Ok tt.
Proof.
  destruct (updateMemeValuation_sink_failure sampleId (withFaults sinkDown world1)
              (grantFounder (newMemeOf (sampleArgs 10) alice sampleId 1700000000000)) [])
    as (v & _ & _ & Hh & _ & Hok & _);
    [reflexivity | reflexivity | reflexivity | vm_compute; reflexivity |].
  split; [exact Hh | exact Hok].
Defined.

Lemma pushCapped_length_min h s :
  length (pushCapped h s) = Nat.min (length h + 1) historyCap.
Proof.
  unfold pushCapped, slice_from. rewrite length_app. cbn [length].
  destruct (historyCap <? length h + 1)%nat eqn:E.
  - apply Nat.ltb_lt in E. rewrite length_drop, length_app. cbn [length]. lia.
  - apply Nat.ltb_ge in E. rewrite length_app. cbn [length]. lia.
Qed.

Lemma Qmax_floor_idem x y : y == Qmax 0.1 x -> Qmax 0.1 y == Qmax 0.1 x.
Proof.
  intros H.
  destruct (Q.max_spec 0.1 x) as [[? H1] | [? H1]];
    destruct (Q.max_spec 0.1 y) as [[? H2] | [? H2]]; lra.
Qed.

Lemma calculateMemeValue_redis_faults id w :
  redis_faults (faults w) = [] ->
  redis_faults (faults (snd (calculateMemeValue id w))) = [].
Proof.
  intros Hf. unfold calculateMemeValue, engagementOf. unfold_m.
  rewrite Hf. cbn. run_m; reflexivity.
Qed.

Lemma updateMemeValuation_redis_faults id w :
  redis_faults (faults w) = [] ->
  redis_faults (faults (snd (updateMemeValuation id w))) = [].
Proof.
  intros Hf.
  pose proof (calculateMemeValue_redis_faults id w Hf) as Hf1.
  unfold updateMemeValuation. unfold try_catch at 1. unfold bind at 1.
  destruct (calculateMemeValue id w) as [[v | e] w1]; cbn [snd] in Hf1.
  - unfold_m. rewrite Hf1. cbn. run_m; reflexivity.
  - unfold_m. run_m; assumption.
Qed.

(** One pass over an asset without a post, when Redis answers. *)
Lemma updateMemeValuation_without_post id w m :
  redis_faults (faults w) = [] ->
  memes (redis w) !! id = Some m ->
  truthy (postId m) = None ->
  exists m',
    memes (redis (snd (updateMemeValuation id w))) !! id = Some m' /\
    postId m' = postId m /\
    length (priceHistory m') = Nat.min (length (priceHistory m) + 1) historyCap /\
    currentSharePrice m' == Qmax 0.1 (currentSharePrice m) /\
    engagementScore m' = or_default (engagementScore m) 10.
Proof.
  intros Hf Hm Hp.
  destruct (updateMemeValuation_commits id w m Hf Hm) as (v & Hv & Hr).
  destruct (calculateMemeValue id w) as [r w1] eqn:Hc. cbn [fst] in Hv. subst r.
  destruct (valuation_carried_over id w m v w1 Hm (or_introl Hp) Hc)
    as (Hs & _ & Hprice).
  exists (commitValuation m v). rewrite Hr. cbn. repeat split.
  - apply lookup_insert_eq.
  - apply pushCapped_length_min.
  - exact Hprice.
  - exact Hs.
Qed.

(** X13: for an asset without a post whose history holds at most 24
    samples, [n] passes in a row with Redis answering leave a history of
    [min(length + n, 24)] samples and, from the first pass on, the price
    [max(0.1, original price)]: the price never moves again. *)
Theorem ticks_without_post n : forall id w m,
  redis_faults (faults w) = [] ->
  memes (redis w) !! id = Some m ->
  truthy (postId m) = None ->
  (length (priceHistory m) <= 24)%nat ->
  exists m',
    memes (redis (ticks n id w)) !! id = Some m' /\
    length (priceHistory m') = Nat.min (length (priceHistory m) + n) 24 /\
    currentSharePrice m' ==
      match n with
      | O => currentSharePrice m
      | S _ => Qmax 0.1 (currentSharePrice m)
      end.
Proof.
  induction n as [| n IH]; intros id w m Hf Hm Hp Hlen.
  - exists m. cbn [ticks]. split; [exact Hm |]. split; [lia | reflexivity].
  - cbn [ticks].
    destruct (updateMemeValuation_without_post id w m Hf Hm Hp)
      as (m1 & Hm1 & Hp1 & Hl1 & Hprice1 & _).
    unfold historyCap in Hl1.
    destruct (IH id (snd (updateMemeValuation id w)) m1) as (m' & Hm' & Hl' & Hprice').
    + now apply updateMemeValuation_redis_faults.
    + exact Hm1.
    + now rewrite Hp1.
    + lia.
    + exists m'. split; [exact Hm' |]. split; [lia |].
      destruct n as [| n'].
      * rewrite Hprice'. exact Hprice1.
      * rewrite Hprice'. now apply Qmax_floor_idem.
Qed.

Lemma ticks_without_post_witness :
  exists m',
    memes (redis (ticks 30 sampleId world1)) !! sampleId = Some m' /\
    length (priceHistory m') = 24%nat /\
    currentSharePrice m' == 10.
Proof.
  destruct (ticks_without_post 30 sampleId world1
              (grantFounder (newMemeOf (sampleArgs 10) alice sampleId 1700000000000)))
    as (m' & Hm' & Hl & Hp).
  - reflexivity.
  - vm_compute. reflexivity.
  - reflexivity.
  - cbn. lia.
  - exists m'. split; [exact Hm' |]. split; [exact Hl | exact Hp].
Defined.

(** ** Ranking: safety in every world, composition with issuance *)

Lemma fetchMemes_frame ids : forall acc w,
  redis (snd (fetchMemes ids acc w)) = redis w /\
  scheduled (snd (fetchMemes ids acc w)) = scheduled w /\
  marketHistory (snd (fetchMemes ids acc w)) = marketHistory w.
Proof.
  induction ids as [| id ids IH]; intros acc w; [repeat split |].
  cbn [fetchMemes]. unfold_m.
  destruct (next_fault (redis_faults (faults w))) as [[] l]; cbn; [repeat split |].
  match goal with
  | |- context [fetchMemes ids ?acc' ?w1] =>
      destruct (IH acc' w1) as (-> & -> & ->)
  end.
  repeat split.
Qed.

Lemma fetchMemes_result ids : forall acc w l w',
  fetchMemes ids acc w = (Ok l, w') ->
  l = acc ++ loadedMemes ids (redis w).
Proof.
  induction ids as [| id ids IH]; intros acc w l w'.
  - cbn. unfold ret. intros; simplify_eq. now rewrite app_nil_r.
  - cbn [fetchMemes]. unfold_m.
    destruct (next_fault (redis_faults (faults w))) as [[] l0]; cbn; [discriminate |].
    intros H. apply IH in H. cbn in H. subst l.
    unfold loadedMemes. cbn [omap].
    destruct (memes (redis w) !! id); cbn; [rewrite <- app_assoc |]; reflexivity.
Qed.

Lemma memeIdsToFetch_result cat w :
  redis (snd (memeIdsToFetch cat w)) = redis w /\
  scheduled (snd (memeIdsToFetch cat w)) = scheduled w /\
  marketHistory (snd (memeIdsToFetch cat w)) = marketHistory w /\
  forall ids, fst (memeIdsToFetch cat w) = Ok ids -> ids = candidateIds cat (redis w).
Proof.
  unfold memeIdsToFetch, candidateIds. unfold_m.
  destruct (truthy cat); destruct (next_fault (redis_faults (faults w))) as [[] l];
    cbn; repeat split; intros; simplify_eq; reflexivity.
Qed.

Lemma loadedMemes_length ids r : (length (loadedMemes ids r) <= length ids)%nat.
Proof.
  unfold loadedMemes. induction ids as [| id ids IH]; cbn; [lia |].
  destruct (memes r !! id); cbn; lia.
Qed.

Lemma slice_to_subseteq {A} (l : list A) e : slice_to l e ⊆ l.
Proof. unfold slice_to. apply subseteq_take. Qed.

Lemma slice_to_nil {A} e : slice_to (@nil A) e = [].
Proof. unfold slice_to. apply take_nil. Qed.

Lemma slice_to_length_le {A} (l : list A) e : (length (slice_to l e) <= length l)%nat.
Proof. unfold slice_to. rewrite length_take. lia. Qed.

(** What [getTrendingMemes] does in any world. *)
Lemma getTrendingMemes_cases limit cat w :
  let r := getTrendingMemes limit cat w in
  redis (snd r) = redis w /\
  scheduled (snd r) = scheduled w /\
  marketHistory (snd r) = marketHistory w /\
  (fst r = Ok [] \/
   fst r = Ok (slice_to (js_sort trendingOrder
                           (loadedMemes (candidateIds cat (redis w)) (redis w)))
                        (default 10%Z limit))).
Proof.
  cbn zeta. unfold getTrendingMemes, try_catch, bind.
  destruct (memeIdsToFetch_result cat w) as (Hr & Hs & Hh & Hids).
  destruct (memeIdsToFetch cat w) as [[ids | e] w1]; cbn [fst snd] in *.
  - specialize (Hids ids eq_refl). subst ids.
    destruct (fetchMemes_frame (candidateIds cat (redis w)) [] w1) as (Hr2 & Hs2 & Hh2).
    destruct (fetchMemes (candidateIds cat (redis w)) [] w1) as [[l | e] w2] eqn:Hf;
      cbn [fst snd] in *.
    + apply fetchMemes_result in Hf. cbn in Hf. subst l.
      unfold ret. cbn. rewrite Hr2, Hs2, Hh2, Hr. auto.
    + unfold console_error, ret. cbn. rewrite Hr2, Hs2, Hh2. auto.
  - unfold console_error, ret. cbn. auto.
Qed.

(** X14: in every world, with any fault, [getTrendingMemes] returns a list
    to its caller and writes nothing to the store, the scheduler or the
    market history; every asset it returns is the stored record of an id
    listed in the index it was asked for, and it returns no more assets
    than that index has entries. *)
Theorem getTrendingMemes_safe limit cat w :
  let r := getTrendingMemes limit cat w in
  redis (snd r) = redis w /\
  scheduled (snd r) = scheduled w /\
  marketHistory (snd r) = marketHistory w /\
  exists l,
    fst r = Ok l /\
    (forall m, m ∈ l ->
       exists id, id ∈ candidateIds cat (redis w) /\ memes (redis w) !! id = Some m) /\
    (length l <= length (candidateIds cat (redis w)))%nat.
Proof.
  destruct (getTrendingMemes_cases limit cat w) as (Hr & Hs & Hh & [Hl | Hl]).
  all: cbn zeta; split; [exact Hr |]; split; [exact Hs |]; split; [exact Hh |].
  all: rewrite Hl; eexists; split; [reflexivity |]; split.
  - intros m Hm. inversion Hm.
  - cbn. lia.
  - intros m Hm. apply slice_to_subseteq in Hm.
    rewrite (js_sort_perm trendingOrder _) in Hm.
    unfold loadedMemes in Hm. now apply list_elem_of_omap in Hm.
  - etransitivity; [apply slice_to_length_le |].
    rewrite (Permutation_length (js_sort_perm _ _)). apply loadedMemes_length.
Qed.

Lemma getTrendingMemes_safe_witness :
  exists l, fst (getTrendingMemes (Some 2%Z) None rankingWorld) = Ok l /\
            forall m, m ∈ l -> exists id, memes rankingRedis !! id = Some m.
Proof.
  destruct (getTrendingMemes_safe (Some 2%Z) None rankingWorld)
    as (_ & _ & _ & l & Hl & Hin & _).
  exists l. split; [exact Hl |].
  intros m Hm. destruct (Hin m Hm) as (id & _ & Hid). exists id. exact Hid.
Defined.

(** X15: a category without an index, like an empty store, gives the empty
    list, for any limit and in any world. *)
Theorem getTrendingMemes_empty_index limit cat w :
  match truthy cat with
  | Some c => category (redis w) !! c = None
  | None => meme_index (redis w) = None
  end ->
  fst (getTrendingMemes limit cat w) = Ok [].
Proof.
  intros H.
  assert (E : candidateIds cat (redis w) = []).
  { unfold candidateIds. destruct (truthy cat); now rewrite H. }
  destruct (getTrendingMemes_cases limit cat w) as (_ & _ & _ & [Hl | Hl]);
    [exact Hl |].
  rewrite Hl, E.
  change (js_sort trendingOrder (loadedMemes [] (redis w))) with (@nil MemeData).
  now rewrite slice_to_nil.
Qed.

Lemma getTrendingMemes_empty_index_witness :
  fst (getTrendingMemes None (Some "sports") world1) = Ok [] /\
  fst (getTrendingMemes (Some 5%Z) None world0) = Ok [].
Proof.
  split.
  - apply (getTrendingMemes_empty_index None (Some "sports") world1).
    vm_compute. reflexivity.
  - apply (getTrendingMemes_empty_index (Some 5%Z) None world0). reflexivity.
Defined.

(** X16: an asset that [createMeme] has just returned is ranked, with a
    change of 0, in the global listing and in the listing of each of its
    categories, as long as Redis answers the query. *)
Theorem createMeme_then_trending a w m w' limit cat :
  createMeme a w = (Ok m, w') ->
  redis_faults (faults w') = [] ->
  match truthy cat with
  | Some c => c ∈ arg_categories a
  | None => True
  end ->
  exists ranked,
    fst (getTrendingMemes limit cat w') = Ok (slice_to ranked (default 10%Z limit)) /\
    m ∈ ranked /\
    getChangePercent m = Finite 0.
Proof.
  intros Hc Hf Hcat.
  destruct (createMeme_effect a w m w' Hc) as (Hid & Hm & Hi & Hc' & _).
  destruct (createMeme_ok a w m w' Hc) as (Hmeme & _).
  eexists. split; [apply (getTrendingMemes_fault_free limit cat w' Hf) |]. split.
  - rewrite (js_sort_perm trendingOrder _).
    unfold loadedMemes. apply list_elem_of_omap.
    exists (meme_id m). split.
    + unfold candidateIds. destruct (truthy cat) as [c |].
      * rewrite Hc'. apply occurrences_pos in Hcat.
        destruct (occurrences c (arg_categories a)) as [| k]; [lia |].
        cbn. rewrite Hid. apply elem_of_app. right. left.
      * rewrite Hi, Hid. cbn. apply elem_of_app. right. left.
    + rewrite Hm, Hid. apply lookup_insert_eq.
  - rewrite Hmeme. reflexivity.
Qed.

Lemma createMeme_then_trending_witness :
  exists ranked,
    fst (getTrendingMemes None (Some "dank") world1) = Ok (slice_to ranked 10) /\
    grantFounder (newMemeOf (sampleArgs 10) alice sampleId 1700000000000) ∈ ranked.
Proof.
  destruct (createMeme_then_trending (sampleArgs 10) world0
              (grantFounder (newMemeOf (sampleArgs 10) alice sampleId 1700000000000))
              world1 None (Some "dank")) as (ranked & Hr & Hin & _).
  - vm_compute. reflexivity.
  - reflexivity.
  - apply (bool_decide_unpack _). vm_compute. exact I.
  - exists ranked. split; [exact Hr | exact Hin].
Defined.

(** * Properties of the components *)

(** ** The marketplace view *)

Section SortByRelation.

Context {A : Type} (cmp : A -> A -> Q) (R : A -> A -> Prop).
Hypothesis cmp_le : forall a b, Qle_bool (cmp a b) 0 = true -> R a b.
Hypothesis cmp_gt : forall a b, Qle_bool (cmp a b) 0 = false -> R b a.
Hypothesis R_trans : forall a b c, R a b -> R b c -> R a c.

Lemma sort_insert_sorted_rel x l :
  StronglySorted R l -> StronglySorted R (sort_insert cmp x l).
Proof.
  induction 1 as [| y l Hl IH Hy]; cbn [sort_insert].
  - repeat constructor.
  - destruct (Qle_bool (cmp x y) 0) eqn:E.
    + constructor; [now constructor |].
      constructor; [now apply cmp_le |].
      eapply Forall_impl; [exact Hy |].
      intros z Hz. eapply R_trans; [apply cmp_le, E | exact Hz].
    + constructor; [exact IH |].
      rewrite (sort_insert_perm cmp x l). constructor; [now apply cmp_gt | exact Hy].
Qed.

Lemma js_sort_sorted_rel l : StronglySorted R (js_sort cmp l).
Proof.
  induction l as [| x l IH]; cbn; [constructor |].
  now apply sort_insert_sorted_rel.
Qed.

End SortByRelation.

Lemma Qle_bool_false x y : Qle_bool x y = false -> y < x.
Proof.
  intros H. destruct (Qlt_le_dec y x) as [Hlt | Hle]; [exact Hlt |].
  apply Qle_bool_iff in Hle. congruence.
Qed.

Lemma applySorting_unknown sortBy l :
  sortBy ∉ ["new"; "price-high"; "price-low"; "volume"] ->
  applySorting sortBy l = l.
Proof.
  intros H. unfold applySorting.
  destruct (String.eqb sortBy "trending"); [reflexivity |].
  repeat match goal with
    | |- context [String.eqb sortBy ?s] =>
        destruct (String.eqb_spec sortBy s) as [-> | _];
        [exfalso; apply H; repeat constructor |]
    end.
  reflexivity.
Qed.

(** X17: the client-side order never adds or drops an asset.  [new] puts
    later creation dates first, [price-high] higher prices first,
    [price-low] lower prices first and [volume] higher trade volumes first;
    [trending] and any other value leave the server's order alone. *)
Theorem applySorting_sorted sortBy l :
  Permutation (applySorting sortBy l) l /\
  (sortBy = "new" ->
   StronglySorted (fun a b => (createdAt b <= createdAt a)%Z) (applySorting sortBy l)) /\
  (sortBy = "price-high" ->
   StronglySorted (fun a b => currentSharePrice b <= currentSharePrice a)
                  (applySorting sortBy l)) /\
  (sortBy = "price-low" ->
   StronglySorted (fun a b => currentSharePrice a <= currentSharePrice b)
                  (applySorting sortBy l)) /\
  (sortBy = "volume" ->
   StronglySorted (fun a b => tradeVolume b <= tradeVolume a) (applySorting sortBy l)) /\
  (sortBy ∉ ["new"; "price-high"; "price-low"; "volume"] ->
   applySorting sortBy l = l).
Proof.
  split; [| split; [| split; [| split; [| split]]]].
  - unfold applySorting.
    repeat match goal with
      | |- context [if ?b then _ else _] => destruct b
      end; try reflexivity; apply js_sort_perm.
  - intros ->. cbn. apply js_sort_sorted_rel.
    + intros a b H. apply Qle_bool_iff in H. unfold compareNewest in H.
      rewrite Zle_Qle. lra.
    + intros a b H. apply Qle_bool_false in H. unfold compareNewest in H.
      rewrite Zle_Qle. lra.
    + intros a b c ? ?. lia.
  - intros ->. cbn. apply js_sort_sorted_rel.
    + intros a b H. apply Qle_bool_iff in H. unfold comparePriceHigh in H. lra.
    + intros a b H. apply Qle_bool_false in H. unfold comparePriceHigh in H. lra.
    + intros a b c ? ?. lra.
  - intros ->. cbn. apply js_sort_sorted_rel.
    + intros a b H. apply Qle_bool_iff in H. unfold comparePriceLow in H. lra.
    + intros a b H. apply Qle_bool_false in H. unfold comparePriceLow in H. lra.
    + intros a b c ? ?. lra.
  - intros ->. cbn. apply js_sort_sorted_rel.
    + intros a b H. apply Qle_bool_iff in H. unfold compareVolume in H. lra.
    + intros a b H. apply Qle_bool_false in H. unfold compareVolume in H. lra.
    + intros a b c ? ?. lra.
  - apply applySorting_unknown.
Qed.

Lemma applySorting_sorted_witness :
  StronglySorted (fun a b => currentSharePrice a <= currentSharePrice b)
                 (applySorting "price-low" [memeUp; memeFlat; memeDown]) /\
  applySorting "hot" [memeUp; memeDown] = [memeUp; memeDown].
Proof.
  split.
  - apply (applySorting_sorted "price-low" [memeUp; memeFlat; memeDown]). reflexivity.
  - apply (applySorting_sorted "hot" [memeUp; memeDown]).
    apply (bool_decide_unpack _). vm_compute. exact I.
Defined.

Lemma getTrendingMemes_redis_down limit cat w rest :
  redis_faults (faults w) = true :: rest ->
  fst (getTrendingMemes limit cat w) = Ok [] /\
  console (snd (getTrendingMemes limit cat w)) = console w ++ [RedisError].
Proof.
  intros Hf. unfold getTrendingMemes, memeIdsToFetch. unfold_m.
  destruct (truthy cat); rewrite Hf; cbn; split; reflexivity.
Qed.

Lemma applySorting_nil sortBy : applySorting sortBy [] = [].
Proof.
  unfold applySorting.
  repeat match goal with
    | |- context [if ?b then _ else _] => destruct b
    end; reflexivity.
Qed.

Lemma applySorting_perm sortBy l : Permutation (applySorting sortBy l) l.
Proof.
  unfold applySorting.
  repeat match goal with
    | |- context [if ?b then _ else _] => destruct b
    end; try reflexivity; apply js_sort_perm.
Qed.

(** What [loadMemes] hands to [setMemes]. *)
Lemma loadMemes_result st w :
  exists l,
    fst (getTrendingMemes (Some 20%Z) (categoryFilter (selectedCategory st)) w) = Ok l /\
    loadMemes st w =
      (Ok {| shownMemes := applySorting (sortBy st) l; loading := false;
             selectedCategory := selectedCategory st; sortBy := sortBy st |},
       snd (getTrendingMemes (Some 20%Z) (categoryFilter (selectedCategory st)) w)).
Proof.
  destruct (getTrendingMemes_returns (Some 20%Z) (categoryFilter (selectedCategory st)) w)
    as (l & Hl).
  exists l. split; [exact Hl |].
  unfold loadMemes, try_catch, bind, ret.
  destruct (getTrendingMemes (Some 20%Z) (categoryFilter (selectedCategory st)) w)
    as [r w1]. cbn [fst snd] in *. subst r. reflexivity.
Qed.

(** X18: [loadMemes] always ends with the loading flag cleared and the
    filter and order settings as they were, shows at most 20 assets, each
    of them the stored record of an id of the selected index, and writes
    nothing to the store. *)
Theorem loadMemes_view st w :
  exists st',
    fst (loadMemes st w) = Ok st' /\
    loading st' = false /\
    selectedCategory st' = selectedCategory st /\
    sortBy st' = sortBy st /\
    (length (shownMemes st') <= 20)%nat /\
    (forall m, m ∈ shownMemes st' ->
       exists id,
         id ∈ candidateIds (categoryFilter (selectedCategory st)) (redis w) /\
         memes (redis w) !! id = Some m) /\
    redis (snd (loadMemes st w)) = redis w.
Proof.
  destruct (loadMemes_result st w) as (l & Hl & ->).
  destruct (getTrendingMemes_cases (Some 20%Z) (categoryFilter (selectedCategory st)) w)
    as (Hr & _ & _ & Hcases).
  eexists. split; [reflexivity |]. cbn [fst snd loading selectedCategory sortBy shownMemes].
  repeat (split; [reflexivity |]). split; [| split; [| exact Hr]].
  - rewrite (Permutation_length (applySorting_perm _ _)).
    destruct Hcases as [H | H]; rewrite H in Hl; simplify_eq; [cbn; lia |].
    pose proof (slice_to_length_pos
                  (js_sort trendingOrder
                     (loadedMemes (candidateIds (categoryFilter (selectedCategory st))
                                     (redis w)) (redis w))) 20%Z) as Hlen.
    cbn [default]. lia.
  - intros m Hm. rewrite (applySorting_perm _ _) in Hm.
    destruct Hcases as [H | H]; rewrite H in Hl; simplify_eq; [inversion Hm |].
    apply slice_to_subseteq in Hm.
    rewrite (js_sort_perm trendingOrder _) in Hm.
    unfold loadedMemes in Hm. now apply list_elem_of_omap in Hm.
Qed.

Lemma loadMemes_view_witness :
  exists st',
    fst (loadMemes marketplace0 rankingWorld) = Ok st' /\
    forall m, m ∈ shownMemes st' -> exists id, memes rankingRedis !! id = Some m.
Proof.
  destruct (loadMemes_view marketplace0 rankingWorld)
    as (st' & Hst & _ & _ & _ & _ & Hin & _).
  exists st'. split; [exact Hst |].
  intros m Hm. destruct (Hin m Hm) as (id & _ & Hid). exists id. exact Hid.
Defined.

(** X19: [getTrendingMemes] answers a Redis failure with the empty list, so
    the [catch] of [loadMemes] is never reached: when Redis is down, the
    view is replaced by the empty list instead of keeping what it showed. *)
Theorem loadMemes_redis_down st w rest :
  redis_faults (faults w) = true :: rest ->
  exists st',
    fst (loadMemes st w) = Ok st' /\
    shownMemes st' = [] /\ loading st' = false /\
    console (snd (loadMemes st w)) = console w ++ [RedisError].
Proof.
  intros Hf.
  destruct (loadMemes_result st w) as (l & Hl & ->).
  destruct (getTrendingMemes_redis_down (Some 20%Z)
              (categoryFilter (selectedCategory st)) w rest Hf) as (Hnil & Hlog).
  rewrite Hnil in Hl. simplify_eq.
  eexists. split; [reflexivity |]. cbn [fst snd shownMemes loading].
  split; [apply applySorting_nil |]. split; [reflexivity | exact Hlog].
Qed.

Lemma loadMemes_redis_down_witness :
  exists st',
    fst (loadMemes (setMemes [memeUp] marketplace0) (withFaults redisDown rankingWorld))
      = Ok st' /\
    shownMemes st' = [].
Proof.
  destruct (loadMemes_redis_down (setMemes [memeUp] marketplace0)
              (withFaults redisDown rankingWorld) [])
    as (st' & Hst & Hnil & _); [reflexivity |].
  exists st'. split; [exact Hst | exact Hnil].
Defined.

Lemma getPriceChangeClass_last_two meme h previous current :
  priceHistory meme = h ++ [previous; current] ->
  getPriceChangeClass meme =
    if negb (Qle_bool (price current - price previous) 0) then "positive"
    else if negb (Qle_bool 0 (price current - price previous)) then "negative"
    else "neutral".
Proof.
  intros H. unfold getPriceChangeClass. rewrite H.
  rewrite length_app. cbn [length].
  replace (length h + 2 <? 2)%nat with false by (symmetry; apply Nat.ltb_ge; lia).
  replace (length h + 2 - 1)%nat with (length h + 1)%nat by lia.
  replace (length h + 2 - 2)%nat with (length h + 0)%nat by lia.
  rewrite !lookup_app_r by lia.
  replace (length h + 1 - length h)%nat with 1%nat by lia.
  replace (length h + 0 - length h)%nat with 0%nat by lia.
  reflexivity.
Qed.

Lemma Qdiv_sign x y :
  0 < y ->
  (0 < x -> 0 < x / y) /\ (x < 0 -> x / y < 0) /\ (x == 0 -> x / y == 0).
Proof.
  intros Hy. pose proof (Qinv_lt_0_compat y Hy) as Hi. unfold Qdiv.
  split; [| split]; intros Hx.
  - apply Qmult_lt_0_compat; assumption.
  - assert (H : 0 < (- x) * / y) by (apply Qmult_lt_0_compat; [lra | assumption]).
    assert (E : (- x) * / y == - (x * / y)) by ring. lra.
  - rewrite Hx. ring.
Qed.

(** X20: for an asset with at least two samples and a positive
    second-to-last price, the colour class of the view agrees with the sign
    of the ranking metric of the server: [positive] exactly when
    [getChangePercent] is above 0, [negative] exactly when it is below 0,
    [neutral] exactly when it is 0. *)
Theorem getPriceChangeClass_agrees meme h previous current :
  priceHistory meme = h ++ [previous; current] ->
  0 < price previous ->
  (getPriceChangeClass meme = "positive" <->
   js_lt (Finite 0) (getChangePercent meme)) /\
  (getPriceChangeClass meme = "negative" <->
   js_lt (getChangePercent meme) (Finite 0)) /\
  (getPriceChangeClass meme = "neutral" <->
   js_eq (getChangePercent meme) (Finite 0)).
Proof.
  intros H Hp.
  rewrite (getPriceChangeClass_last_two meme h previous current H).
  rewrite (getChangePercent_last_two meme h previous current H).
  rewrite js_div_nonzero by lra. cbn [js_lt js_eq].
  destruct (Qdiv_sign (price current - price previous) (price previous) Hp)
    as (Hpos & Hneg & Hzero).
  set (change := price current - price previous) in *.
  destruct (Qle_bool change 0) eqn:E1; cbn [negb].
  - apply Qle_bool_iff in E1.
    destruct (Qle_bool 0 change) eqn:E2; cbn [negb].
    + apply Qle_bool_iff in E2.
      assert (Hz : change == 0) by lra. specialize (Hzero Hz).
      repeat split; intros; try discriminate; lra.
    + apply Qle_bool_false in E2. specialize (Hneg E2).
      repeat split; intros; try discriminate; lra.
  - apply Qle_bool_false in E1. specialize (Hpos E1).
    repeat split; intros; try discriminate; lra.
Qed.

Lemma getPriceChangeClass_agrees_witness :
  getPriceChangeClass memeUp = "positive" /\
  js_lt (Finite 0) (getChangePercent memeUp) /\
  js_lt (getChangePercent memeDown) (Finite 0).
Proof.
  destruct (getPriceChangeClass_agrees memeUp []
              {| timestamp := 1700000000000; price := 10 |}
              {| timestamp := 1700000000000; price := 11 |})
    as (Hup & _ & _); [reflexivity | reflexivity |].
  destruct (getPriceChangeClass_agrees memeDown []
              {| timestamp := 1700000000000; price := 10 |}
              {| timestamp := 1700000000000; price := 9 |})
    as (_ & Hdown & _); [reflexivity | reflexivity |].
  split; [reflexivity |]. split.
  - apply Hup. reflexivity.
  - apply Hdown. reflexivity.
Defined.

(** ** The creation form *)

Lemma filter_all {A} (P : A -> Prop) `{forall x, Decision (P x)} (l : list A) :
  Forall P l -> filter P l = l.
Proof.
  induction 1 as [| x l Hx Hl IH]; [reflexivity |].
  rewrite filter_cons. destruct (decide (P x)); [| contradiction].
  now rewrite IH.
Qed.

Lemma toggleCategory_selected c prev :
  c ∈ prev -> toggleCategory c prev = filter (fun d => d ≠ c) prev.
Proof. intros H. unfold toggleCategory. now rewrite bool_decide_eq_true_2. Qed.

Lemma toggleCategory_unselected c prev :
  c ∉ prev -> toggleCategory c prev = prev ++ [c].
Proof. intros H. unfold toggleCategory. now rewrite bool_decide_eq_false_2. Qed.

(** X21: pressing a category pill flips the membership of that category in
    the selection and of no other, keeps a selection without duplicates
    free of duplicates, and, for a category that was not selected, a second
    press gives back the selection as it was. *)
Theorem toggleCategory_flips c prev :
  (c ∈ toggleCategory c prev <-> c ∉ prev) /\
  (forall d, d ≠ c -> (d ∈ toggleCategory c prev <-> d ∈ prev)) /\
  (NoDup prev -> NoDup (toggleCategory c prev)) /\
  (c ∉ prev -> toggleCategory c (toggleCategory c prev) = prev).
Proof.
  destruct (decide (c ∈ prev)) as [E | E].
  - rewrite (toggleCategory_selected c prev E). split; [| split; [| split]].
    + split; [| intros Hn; contradiction].
      intros Hin. apply list_elem_of_filter in Hin as [Hne _]. congruence.
    + intros d Hd. rewrite list_elem_of_filter. tauto.
    + intros Hnd. now apply NoDup_filter.
    + intros Hn. contradiction.
  - rewrite (toggleCategory_unselected c prev E). split; [| split; [| split]].
    + split; [intros _; exact E |].
      intros _. apply elem_of_app. right. left.
    + intros d Hd. rewrite elem_of_app, list_elem_of_singleton. tauto.
    + intros Hnd. apply NoDup_app. split; [exact Hnd |]. split.
      * intros x Hx Hx'. apply list_elem_of_singleton in Hx'. congruence.
      * apply NoDup_singleton.
    + intros _.
      rewrite toggleCategory_selected by (apply elem_of_app; right; left).
      rewrite filter_app. cbn [filter list_filter].
      destruct (decide (c ≠ c)) as [Hc | _]; [congruence |].
      rewrite app_nil_r. apply filter_all.
      apply Forall_forall. intros x Hx ->. contradiction.
Qed.

Lemma toggleCategory_flips_witness :
  NoDup (toggleCategory "gaming" ["tech"; "gaming"; "sports"]) /\
  toggleCategory "animals" (toggleCategory "animals" ["tech"]) = ["tech"].
Proof.
  split.
  - apply (toggleCategory_flips "gaming" ["tech"; "gaming"; "sports"]).
    apply (bool_decide_unpack _). vm_compute. exact I.
  - apply (toggleCategory_flips "animals" ["tech"]).
    apply (bool_decide_unpack _). vm_compute. exact I.
Defined.

(** * Further invariants of the store *)

(** X22: a pass for an id without a record changes neither the store nor
    the market history, and logs at least one error. *)
Theorem updateMemeValuation_missing id w :
  memes (redis w) !! id = None ->
  let w' := snd (updateMemeValuation id w) in
  redis w' = redis w /\
  marketHistory w' = marketHistory w /\
  (length (console w) < length (console w'))%nat.
Proof.
  intros Hm w'. subst w'.
  destruct (updateMemeValuation_store id w) as [Hr | (m & _ & _ & Hm' & _)];
    [| congruence].
  split; [exact Hr |].
  destruct (updateMemeValuation id w) as [r w'] eqn:E. cbn [snd].
  revert E. unfold updateMemeValuation, calculateMemeValue. unfold_m.
  rewrite Hm. run_m; intros; simplify_eq/=; rewrite ?length_app; cbn; split;
    first [reflexivity | lia].
Qed.

Lemma updateMemeValuation_missing_witness :
  redis (snd (updateMemeValuation "meme_gone" world1)) = redis world1 /\
  marketHistory (snd (updateMemeValuation "meme_gone" world1)) = [].
Proof.
  destruct (updateMemeValuation_missing "meme_gone" world1) as (Hr & Hh & _).
  - vm_compute. reflexivity.
  - split; [exact Hr | exact Hh].
Defined.

(** X23: the job that [createMeme] schedules names an asset that exists.
    When Redis answers, the first pass for the new asset commits: the
    history then holds two samples and the price is
    [max(0.1, initial price)], so an initial price below 0.1 is lifted to
    0.1. *)
Theorem createMeme_first_pass a w m w' :
  createMeme a w = (Ok m, w') ->
  redis_faults (faults w') = [] ->
  last (scheduled w') = Some (updateJob (meme_id m) 3600) /\
  exists m',
    memes (redis (snd (updateMemeValuation (meme_id m) w'))) !! meme_id m = Some m' /\
    length (priceHistory m') = 2%nat /\
    currentSharePrice m' == Qmax 0.1 (arg_initialSharePrice a) /\
    availableShares m' = availableShares m.
Proof.
  intros Hc Hf.
  destruct (createMeme_effect a w m w' Hc) as (Hid & Hm & _ & _ & _ & Hs & _).
  destruct (createMeme_ok a w m w' Hc) as (Hmeme & _).
  assert (Hstored : memes (redis w') !! meme_id m = Some m).
  { rewrite Hm, Hid. apply lookup_insert_eq. }
  split; [rewrite Hs, Hid; apply last_snoc |].
  assert (Hpost : truthy (postId m) = None) by (rewrite Hmeme; reflexivity).
  destruct (updateMemeValuation_commits (meme_id m) w' m Hf Hstored) as (v & Hv & Hr).
  destruct (calculateMemeValue (meme_id m) w') as [r w1] eqn:Hcalc.
  cbn [fst] in Hv. subst r.
  destruct (valuation_carried_over (meme_id m) w' m v w1 Hstored (or_introl Hpost) Hcalc)
    as (_ & _ & Hprice).
  exists (commitValuation m v). rewrite Hr. cbn. split; [apply lookup_insert_eq |].
  split; [| split; [| reflexivity]].
  - rewrite pushCapped_length_min, Hmeme. reflexivity.
  - rewrite Hprice, Hmeme. reflexivity.
Qed.

Lemma createMeme_first_pass_witness :
  exists m',
    memes (redis (snd (updateMemeValuation sampleId
                         (snd (createMeme (sampleArgs (-5)) world0))))) !! sampleId
      = Some m' /\
    currentSharePrice m' == 0.1.
Proof.
  destruct (createMeme_first_pass (sampleArgs (-5)) world0
              (grantFounder (newMemeOf (sampleArgs (-5)) alice sampleId 1700000000000))
              (snd (createMeme (sampleArgs (-5)) world0)))
    as (_ & m' & Hm' & _ & Hp & _).
  - vm_compute. reflexivity.
  - vm_compute. reflexivity.
  - exists m'. split; [exact Hm' | exact Hp].
Defined.

(** X24: in a store where the current price of every asset is the price of
    its latest sample, it is so again after [createMeme] and after any
    sequence of recompute passes, whatever fails on the way. *)
Theorem price_is_latest_kept a ids w :
  stored_all price_is_latest w ->
  stored_all price_is_latest (snd (createMeme a w)) /\
  stored_all price_is_latest (recompute_all ids w).
Proof.
  intros Hw. split.
  - apply createMeme_stored_all; [| | exact Hw].
    + intros. reflexivity.
    + intros m Hm. exact Hm.
  - apply recompute_all_stored_all; [| exact Hw].
    intros m v. unfold price_is_latest. cbn [commitValuation priceHistory currentSharePrice].
    now rewrite pushCapped_last.
Qed.

Lemma price_is_latest_kept_witness :
  stored_all price_is_latest world1 /\
  stored_all price_is_latest (recompute_all [sampleId; sampleId] world1).
Proof.
  assert (H0 : stored_all price_is_latest world0) by apply map_Forall_empty.
  assert (H1 : stored_all price_is_latest world1)
    by apply (price_is_latest_kept (sampleArgs 10) [] world0 H0).
  split; [exact H1 |].
  apply (price_is_latest_kept (sampleArgs 10) [sampleId; sampleId] world1 H1).
Defined.

Lemma resolves_mono r r' ids :
  (forall id, is_Some (memes r !! id) -> is_Some (memes r' !! id)) ->
  resolves r ids -> resolves r' ids.
Proof. intros H Hr. unfold resolves. eapply Forall_impl; [exact Hr | exact H]. Qed.

Lemma resolves_insert r r' id m ids :
  memes r' = <[id := m]> (memes r) -> resolves r ids -> resolves r' ids.
Proof.
  intros E. apply resolves_mono. intros id' H. rewrite E.
  destruct (decide (id = id')) as [-> | Hne];
    [rewrite lookup_insert_eq; eauto | now rewrite lookup_insert_ne].
Qed.

Lemma resolves_snoc r ids id :
  resolves r ids -> is_Some (memes r !! id) -> resolves r (ids ++ [id]).
Proof.
  intros H Hid. unfold resolves. apply Forall_app. split; [exact H |].
  now repeat constructor.
Qed.

Lemma addToCategory_resolves id c w :
  is_Some (memes (redis w) !! id) ->
  map_Forall (fun _ ids => resolves (redis w) ids) (category (redis w)) ->
  let w' := snd (addToCategory id c w) in
  memes (redis w') = memes (redis w) /\
  map_Forall (fun _ ids => resolves (redis w') ids) (category (redis w')).
Proof.
  intros Hid Hcat. unfold addToCategory. unfold_m.
  run_m; (split; [reflexivity |]); try exact Hcat.
  cbn. apply map_Forall_insert_2; [| exact Hcat].
  apply resolves_snoc; [| exact Hid].
  destruct (category (redis w) !! c) as [ids |] eqn:E; cbn; [| constructor].
  exact (Hcat c ids E).
Qed.

Lemma category_loop_resolves id cats : forall w,
  is_Some (memes (redis w) !! id) ->
  map_Forall (fun _ ids => resolves (redis w) ids) (category (redis w)) ->
  map_Forall (fun _ ids => resolves (redis (snd (for_of cats (addToCategory id) w))) ids)
             (category (redis (snd (for_of cats (addToCategory id) w)))).
Proof.
  induction cats as [| c cats IH]; intros w Hid Hcat; [exact Hcat |].
  cbn [for_of]. unfold bind.
  destruct (addToCategory_resolves id c w Hid Hcat) as (Hm & Hcat1).
  destruct (addToCategory id c w) as [[[] | e] w1]; cbn [snd] in *.
  - apply IH; [now rewrite Hm | exact Hcat1].
  - exact Hcat1.
Qed.

Lemma category_resolves_insert r r' id m (cm : gmap string (list string)) :
  memes r' = <[id := m]> (memes r) ->
  map_Forall (fun _ ids => resolves r ids) cm ->
  map_Forall (fun _ ids => resolves r' ids) cm.
Proof.
  intros Em H c ids Hc.
  eapply resolves_insert; [exact Em | exact (H c ids Hc)].
Qed.

Lemma createMeme_no_dangling a w :
  no_dangling w -> no_dangling (snd (createMeme a w)).
Proof.
  intros [Hidx Hcat].
  set (id := makeMemeId (clock (env w)) (random (env w))).
  set (m0 := newMemeOf a (currentUser (env w)) id (clock (env w))).
  set (r1 := with_meme id m0 (redis w)).
  assert (Hidx1 : resolves r1 (default [] (meme_index (redis w)) ++ [id])).
  { apply resolves_snoc.
    - eapply resolves_insert; [reflexivity | exact Hidx].
    - cbn. rewrite lookup_insert_eq. eauto. }
  assert (Hcat1 : map_Forall (fun _ ids => resolves r1 ids) (category (redis w))).
  { apply (category_resolves_insert (redis w) r1 id m0); [reflexivity | exact Hcat]. }
  unfold no_dangling, createMeme. unfold_m.
  destruct (next_fault (reddit_faults (faults w))) as [[] l0]; cbn; [now split |].
  destruct (next_fault (redis_faults (faults w))) as [[] l1]; cbn; [now split |].
  destruct (next_fault l1) as [[] l2]; cbn.
  { split; [eapply resolves_insert; [reflexivity | exact Hidx] | exact Hcat1]. }
  destruct (next_fault l2) as [[] l3]; cbn.
  { split; [eapply resolves_insert; [reflexivity | exact Hidx] | exact Hcat1]. }
  match goal with
  | |- context [for_of ?cats (addToCategory ?i) ?w0] =>
      pose proof (category_loop_resolves i cats w0) as Hloop;
      pose proof (category_loop i cats w0) as Hfr;
      destruct (for_of cats (addToCategory i) w0) as [r w2]
  end.
  cbn [snd] in Hloop, Hfr.
  destruct Hfr as (Hm2 & Hi2 & _). cbn in Hm2, Hi2.
  assert (Hcat2 : map_Forall (fun _ ids => resolves (redis w2) ids) (category (redis w2))).
  { apply Hloop; [cbn; rewrite lookup_insert_eq; eauto | exact Hcat1]. }
  assert (Hidx2 : resolves (redis w2) (default [] (meme_index (redis w2)))).
  { rewrite Hi2. cbn. unfold resolves. rewrite Hm2. exact Hidx1. }
  clear Hloop.
  destruct r as [[] | e]; cbn; [| now split].
  run_m; cbn; try (now split).
  all: split;
    [ eapply resolves_insert; [reflexivity | exact Hidx2]
    | eapply category_resolves_insert; [reflexivity | exact Hcat2] ].
Qed.

Lemma updateMemeValuation_no_dangling id w :
  no_dangling w -> no_dangling (snd (updateMemeValuation id w)).
Proof.
  intros [Hidx Hcat]. unfold no_dangling.
  destruct (updateMemeValuation_store id w) as [-> | (m & v & w1 & _ & _ & ->)];
    [now split |].
  split.
  - eapply resolves_insert; [reflexivity | exact Hidx].
  - eapply category_resolves_insert; [reflexivity | exact Hcat].
Qed.

(** X25: the engine never leaves an index entry without a record: in a
    store where every indexed id, global or of a category, has a record, it
    is so again after [createMeme], which writes the record before it
    writes the indexes, and after any sequence of recompute passes,
    wherever a collaborator fails. *)
Theorem no_dangling_kept a ids w :
  no_dangling w ->
  no_dangling (snd (createMeme a w)) /\
  no_dangling (recompute_all ids w).
Proof.
  intros Hw. split; [now apply createMeme_no_dangling |].
  revert w Hw. unfold recompute_all.
  induction ids as [| id ids IH]; intros w Hw; cbn [foldl]; [exact Hw |].
  apply IH. now apply updateMemeValuation_no_dangling.
Qed.

Lemma no_dangling_kept_witness :
  no_dangling world1 /\
  no_dangling (snd (createMeme (sampleArgs 10) (withFaults commitFails world0))) /\
  no_dangling (recompute_all [sampleId; sampleId] world1).
Proof.
  assert (H0 : no_dangling world0).
  { split; [constructor | apply map_Forall_empty]. }
  assert (H1 : no_dangling (withFaults commitFails world0)).
  { split; [constructor | apply map_Forall_empty]. }
  assert (H2 : no_dangling world1)
    by apply (no_dangling_kept (sampleArgs 10) [] world0 H0).
  split; [exact H2 |]. split.
  - apply (no_dangling_kept (sampleArgs 10) [] (withFaults commitFails world0) H1).
  - apply (no_dangling_kept (sampleArgs 10) [sampleId; sampleId] world1 H2).
Defined.
